(** * Cetus CLMM SDK: reward accrual and swap-rate preview

    A shallow embedding of two classes of the SDK,
    - [RewarderModule] of [modules/rewarderModule.ts]: [updatePoolRewarder]
      and [posRewardersAmountInternal];
    - [SwapModule] of [modules/swapModule.ts]: [calculateRates];
    together with the properties of them that the specification states.
    The helpers these methods import from [math/] and [utils/] are either
    parameters of the methods or modelled from the specification, as said at
    each of them.

    The second part, "More of the SDK", embeds what else of the sources is
    integer, string and map code, with properties read off the code:
    - [compare] and [isSortedSymbols] of [utils/contracts.ts];
    - [unsafe_mul_round], [unsafe_div_round], [unsafe_div], [unsafe_mul],
      [preRouterSwapA2B2C] and the coin, path and pool-address maps of
      [modules/routerModule.ts];
    - [buildCoinTypePair] and [fixSwapParams] of [utils/transaction-util.ts];
    - [preSwapWithMultiPool] of [SwapModule]; [poolRewardersAmount],
      [fetchPosRewardersAmount] and [fetchPoolRewardersAmount] of
      [RewarderModule].
    A request to the chain is an argument or a parameter there: the events
    of a simulated transaction block are given, not computed.

    Conventions of the embedding.
    - A [BN] is an arbitrary-precision integer: [Z].  The decimal strings the
      chain returns ([liquidity], [reward_growth_inside_0], ...) are read by
      [new BN(s)]; the records below hold the integer that is read.
    - A JavaScript exception is an [Outcome] that is [Thrown].
    - A method of [RewarderModule] is a computation over the instance's
      fields, which survive the call ([growthGlobal] is written by one method
      and read by another).
    - [calculateRates] receives its argument object by reference: the model
      returns the object as it is after the call next to the result. *)

From Stdlib Require Import ZArith Lia Bool Floats.
From stdpp Require Import base numbers list strings sorting gmap.

Local Open Scope Z_scope.

(** ** Outcomes of a call *)

Inductive Exn : Type :=
| Overflow
| DivisionByZero
| TypeError
| InvalidAmount
| PriceOutOfBounds
| MalformedTickData
| FetchFailed.

Inductive Outcome (A : Type) : Type :=
| Returned (a : A)
| Thrown (e : Exn).

Arguments Returned {A} a.
Arguments Thrown {A} e.

Definition Outcome_bind {A B : Type} (c : Outcome A) (k : A -> Outcome B) : Outcome B :=
  match c with
  | Returned a => k a
  | Thrown e => Thrown e
  end.

(** A method body: it runs on the fields of the instance and leaves them,
    possibly changed, behind, also when it throws. *)
Definition Method (S A : Type) : Type := S -> Outcome A * S.

Definition ret {S A : Type} (a : A) : Method S A := fun s => (Returned a, s).

Definition bind {S A B : Type} (c : Method S A) (k : A -> Method S B) : Method S B :=
  fun s =>
    match c s with
    | (Returned a, s') => k a s'
    | (Thrown e, s') => (Thrown e, s')
    end.

Definition lift {S A : Type} (o : Outcome A) : Method S A := fun s => (o, s).

Definition gets {S A : Type} (f : S -> A) : Method S A := fun s => (Returned (f s), s).

Definition modify {S : Type} (f : S -> S) : Method S unit := fun s => (Returned tt, f s).

Declare Scope method_scope.
Delimit Scope method_scope with method.
Notation "'let*' x ':=' c 'in' k" := (bind c (fun x => k))
  (at level 10, x name, c at level 100, k at level 200) : method_scope.
Notation "'let*' ' p ':=' c 'in' k" := (bind c (fun x => match x with p => k end))
  (at level 10, p strict pattern, c at level 100, k at level 200) : method_scope.
Notation "'run' c 'in' k" := (bind c (fun _ => k))
  (at level 10, c at level 100, k at level 200) : method_scope.

(** ** MathUtil *)

Module MathUtil.

Definition ZERO : Z := 0.
Definition ONE : Z := 1.

(** Modelled from the spec: [MathUtil.isOverflow] is not among the sources.
    A value fits the target width when it is an unsigned integer of [bit]
    bits (section 4.1, "cannot be represented in the target width"). *)
Definition isOverflow (n : Z) (bit : Z) : bool :=
  negb ((0 <=? n) && (n <? 2 ^ bit)).

(** Modelled from the spec: [MathUtil.subUnderflowU128] is not among the
    sources.  Section 4.1: [wrappingSub(a, b) = (a - b) mod 2^128]. *)
Definition subUnderflowU128 (n0 n1 : Z) : Z := (n0 - n1) mod 2 ^ 128.

(** Modelled from the spec: [MathUtil.checkMulShiftRight] is not among the
    sources.  Section 4.1: [mulShiftRight(a, b, shift) = floor(a*b / 2^shift)];
    the caller passes the width [limit] the result is checked against, and a
    result beyond it is the [Overflow] of section 7. *)
Definition checkMulShiftRight (n0 n1 : Z) (shift limit : Z) : Outcome Z :=
  let result := (n0 * n1) / 2 ^ shift in
  if isOverflow result limit then Thrown Overflow else Returned result.

(** Modelled from the spec: [MathUtil.checkMulDivFloor] is not among the
    sources.  Section 4.1: [mulDivFloor(a, b, denom) = floor(a*b / denom)],
    failing with [Overflow] when the result does not fit the target width.
    A [BN] division by zero throws. *)
Definition checkMulDivFloor (n0 n1 denom : Z) (limit : Z) : Outcome Z :=
  if denom =? 0 then Thrown DivisionByZero
  else
    let result := (n0 * n1) / denom in
    if isOverflow result limit then Thrown Overflow else Returned result.

End MathUtil.

(** ** Data *)

Module Rewarder.
Record t : Type := mk {
  coinAddress : string;
  emissions_per_second : Z;
  growth_global : Z
}.
End Rewarder.

Module Pool.
Record t : Type := mk {
  poolAddress : string;
  coinTypeA : string;
  coinTypeB : string;
  current_sqrt_price : Z;
  current_tick_index : Z;
  fee_rate : Z;
  liquidity : Z;
  tickSpacing : Z;
  rewarder_infos : list Rewarder.t;
  rewarder_last_updated_time : Z;
  ticks_handle : string
}.

Definition set_rewarder_last_updated_time (v : Z) (p : t) : t :=
  mk (poolAddress p) (coinTypeA p) (coinTypeB p) (current_sqrt_price p)
     (current_tick_index p) (fee_rate p) (liquidity p) (tickSpacing p)
     (rewarder_infos p) v (ticks_handle p).
End Pool.

Module TickData.
Record t : Type := mk {
  index : Z;
  sqrtPrice : Z;
  liquidityNet : Z;
  feeGrowthOutsideA : Z;
  feeGrowthOutsideB : Z;
  rewardersGrowthOutside : list Z
}.
End TickData.

Module PositionReward.
Record t : Type := mk {
  liquidity : Z;
  tick_lower_index : Z;
  tick_upper_index : Z;
  reward_amount_owed_0 : Z;
  reward_amount_owed_1 : Z;
  reward_amount_owed_2 : Z;
  reward_growth_inside_0 : Z;
  reward_growth_inside_1 : Z;
  reward_growth_inside_2 : Z
}.
End PositionReward.

Module RewarderAmountOwed.
Record t : Type := mk {
  amount_owed : Z;
  coin_address : string
}.
End RewarderAmountOwed.

(** [a[i].f] of JavaScript: reading a field of an absent element throws. *)
Definition field_at {A B : Type} (l : list A) (i : nat) (f : A -> B) : Outcome B :=
  match l !! i with
  | Some a => Returned (f a)
  | None => Thrown TypeError
  end.

(** [a[i] = v] of JavaScript: an index past the end extends the array.  The
    elements skipped over are holes; the loop of [updatePoolRewarder] writes
    the indices [0, 1, ...] in turn into an array of three, so it never
    leaves one, and the model fills them with [0]. *)
Definition array_set (a : list Z) (i : nat) (v : Z) : list Z :=
  if decide (i < length a)%nat then <[i := v]> a
  else a ++ replicate (i - length a) 0 ++ [v].

(** ** Growth inside a tick range *)

Module TickUtil.

Import MathUtil.

(** Modelled from the spec: [getRewardInTickRange] of [utils/tick] is not
    among the sources.  Section 4.4: for every rewarder of the pool,
    [growthInside = growthGlobal - growthBelow(tickLower) - growthAbove(tickUpper)],
    each subtraction a [wrappingSub]; a boundary tick carries the growth
    recorded on its far side when it was last crossed, so the growth below
    the lower tick is the recorded value when the current tick is at or above
    it and the rest of the global growth otherwise, and likewise above the
    upper tick. *)
Definition getRewardInTickRange (pool : Pool.t) (tickLower tickUpper : TickData.t)
    (tickLowerIndex tickUpperIndex : Z) (growthGlobal : list Z) : list Z :=
  imap
    (fun i (_ : Rewarder.t) =>
       let global := growthGlobal !!! i in
       let below :=
         if Pool.current_tick_index pool <? tickLowerIndex then
           subUnderflowU128 global (TickData.rewardersGrowthOutside tickLower !!! i)
         else TickData.rewardersGrowthOutside tickLower !!! i in
       let above :=
         if Pool.current_tick_index pool >=? tickUpperIndex then
           subUnderflowU128 global (TickData.rewardersGrowthOutside tickUpper !!! i)
         else TickData.rewardersGrowthOutside tickUpper !!! i in
       subUnderflowU128 (subUnderflowU128 global below) above)
    (Pool.rewarder_infos pool).

End TickUtil.

(** ** RewarderModule *)

(** What the module asks of the SDK it is built on: the pool fetched from the
    chain, or the failure of the request. *)
Module CetusClmmSDK.
Record t : Type := mk {
  getPool : string -> Outcome Pool.t
}.
End CetusClmmSDK.

Module RewarderModule.

Import MathUtil.
Local Open Scope method_scope.

(** The fields of an instance. *)
Record t : Type := mk {
  _sdk : CetusClmmSDK.t;
  growthGlobal : list Z
}.

Definition constructor (sdk : CetusClmmSDK.t) : t := mk sdk [ZERO; ZERO; ZERO].

Definition set_growthGlobal (i : nat) (v : Z) (self : t) : t :=
  mk (_sdk self) (array_set (growthGlobal self) i v).

Section Methods.

(** [getRewardInTickRange] of [utils/tick] is not among the sources: the
    growth inside the position's range, one value per rewarder, computed from
    the pool, the two boundary ticks and the growth array it is handed. *)
Variable getRewardInTickRange :
  Pool.t -> TickData.t -> TickData.t -> Z -> Z -> list Z -> list Z.

(** The body of the loop of [updatePoolRewarder], from index [i] on;
    [rest] holds [rewarderInfos[i]], [rewarderInfos[i+1]], ... *)
Fixpoint updatePoolRewarder_loop (currentPool : Pool.t) (timeDelta : Z)
    (rest : list Rewarder.t) (i : nat) : Method t unit :=
  match rest with
  | [] => ret tt
  | rewarderInfo :: rest' =>
      let* rewarderGrowthDelta :=
        lift (checkMulDivFloor timeDelta
                (Rewarder.emissions_per_second rewarderInfo)
                (Pool.liquidity currentPool) 128) in
      run modify (set_growthGlobal i
                    (Rewarder.growth_global rewarderInfo + rewarderGrowthDelta)) in
      updatePoolRewarder_loop currentPool timeDelta rest' (S i)
  end.

(** [updatePoolRewarder(poolObjectId, currentTime)].  The pool is fetched
    and stamped with the current time before anything is tested.
    [Number(currentPool.liquidity) === 0] holds of the decimal string of an
    integer exactly when the integer is 0; [BN.div] truncates. *)
Definition updatePoolRewarder (poolObjectId : string) (currentTime : Z) : Method t Pool.t :=
  let* sdk := gets _sdk in
  let* currentPool := lift (CetusClmmSDK.getPool sdk poolObjectId) in
  let lastTime := Pool.rewarder_last_updated_time currentPool in
  let currentPool := Pool.set_rewarder_last_updated_time currentTime currentPool in
  if (Pool.liquidity currentPool =? 0) || (currentTime =? lastTime) then
    ret currentPool
  else
    let timeDelta := currentTime ÷ 1000 - lastTime + 15 in
    let rewarderInfos := Pool.rewarder_infos currentPool in
    run updatePoolRewarder_loop currentPool timeDelta rewarderInfos 0 in
    ret currentPool.

(** [posRewardersAmountInternal(pool, position, tickLower, tickUpper)].
    [growthInside] and [AmountOwed] are the two local arrays; the three
    blocks push onto them in turn. *)
Definition posRewardersAmountInternal (pool : Pool.t) (position : PositionReward.t)
    (tickLower tickUpper : TickData.t) : Method t (list RewarderAmountOwed.t) :=
  let tickLowerIndex := PositionReward.tick_lower_index position in
  let tickUpperIndex := PositionReward.tick_upper_index position in
  let* growthGlobal := gets growthGlobal in
  let rewardersInside :=
    getRewardInTickRange pool tickLower tickUpper tickLowerIndex tickUpperIndex growthGlobal in
  let growthInside : list Z := [] in
  let AmountOwed : list RewarderAmountOwed.t := [] in
  let* '(growthInside, AmountOwed) :=
    if (0 <? length rewardersInside)%nat then
      let growthDelta_0 :=
        subUnderflowU128 (rewardersInside !!! 0%nat) (PositionReward.reward_growth_inside_0 position) in
      let growthDelta_0 :=
        if growthDelta_0 >? 3402823669209384634633745948738404 then ONE else growthDelta_0 in
      let* amountOwed_0 :=
        lift (checkMulShiftRight (PositionReward.liquidity position) growthDelta_0 64 128) in
      let growthInside := growthInside ++ [rewardersInside !!! 0%nat] in
      let* coin_address := lift (field_at (Pool.rewarder_infos pool) 0 Rewarder.coinAddress) in
      ret (growthInside,
           AmountOwed ++ [RewarderAmountOwed.mk
                            (PositionReward.reward_amount_owed_0 position + amountOwed_0)
                            coin_address])
    else ret (growthInside, AmountOwed) in
  let* '(growthInside, AmountOwed) :=
    if (1 <? length rewardersInside)%nat then
      let growthDelta_1 :=
        subUnderflowU128 (rewardersInside !!! 1%nat) (PositionReward.reward_growth_inside_1 position) in
      let growthDelta_1 :=
        if growthDelta_1 >? 3402823669209384634633745948738404 then ONE else growthDelta_1 in
      let* amountOwed_1 :=
        lift (checkMulShiftRight (PositionReward.liquidity position) growthDelta_1 64 128) in
      let growthInside := growthInside ++ [rewardersInside !!! 1%nat] in
      let* coin_address := lift (field_at (Pool.rewarder_infos pool) 1 Rewarder.coinAddress) in
      ret (growthInside,
           AmountOwed ++ [RewarderAmountOwed.mk
                            (PositionReward.reward_amount_owed_1 position + amountOwed_1)
                            coin_address])
    else ret (growthInside, AmountOwed) in
  let* '(growthInside, AmountOwed) :=
    if (2 <? length rewardersInside)%nat then
      let growthDelta_2 :=
        subUnderflowU128 (rewardersInside !!! 2%nat) (PositionReward.reward_growth_inside_2 position) in
      let growthDelta_2 :=
        if growthDelta_2 >? 3402823669209384634633745948738404 then ONE else growthDelta_2 in
      let* amountOwed_2 :=
        lift (checkMulShiftRight (PositionReward.liquidity position) growthDelta_2 64 128) in
      let growthInside := growthInside ++ [rewardersInside !!! 2%nat] in
      let* coin_address := lift (field_at (Pool.rewarder_infos pool) 2 Rewarder.coinAddress) in
      ret (growthInside,
           AmountOwed ++ [RewarderAmountOwed.mk
                            (PositionReward.reward_amount_owed_2 position + amountOwed_2)
                            coin_address])
    else ret (growthInside, AmountOwed) in
  ret AmountOwed.

(** The growth-inside values a call of [posRewardersAmountInternal] works on
    when the instance is [self]. *)
Definition rewardersInside_of (self : t) (pool : Pool.t)
    (position : PositionReward.t) (tickLower tickUpper : TickData.t) : list Z :=
  getRewardInTickRange pool tickLower tickUpper
    (PositionReward.tick_lower_index position)
    (PositionReward.tick_upper_index position)
    (growthGlobal self).

End Methods.

End RewarderModule.

(** ** SwapModule *)

Module ClmmpoolData.
Record t : Type := mk {
  currentSqrtPrice : Z;
  currentTickIndex : Z;
  feeRate : Z;
  liquidity : Z;
  tickSpacing : Z
}.
End ClmmpoolData.

(** Modelled from the spec: [transClmmpoolDataWithoutTicks] of
    [types/clmmpool] is not among the sources.  It reads the pool into the
    snapshot of section 3 (liquidity, current sqrt price, fee rate, tick
    spacing), with the current tick; the pool itself is left as it is. *)
Definition transClmmpoolDataWithoutTicks (pool : Pool.t) : ClmmpoolData.t :=
  ClmmpoolData.mk (Pool.current_sqrt_price pool) (Pool.current_tick_index pool)
    (Pool.fee_rate pool) (Pool.liquidity pool) (Pool.tickSpacing pool).

Module SwapResult.
Record t : Type := mk {
  amountIn : Z;
  amountOut : Z;
  feeAmount : Z;
  nextSqrtPrice : Z;
  crossTickNum : Z
}.
End SwapResult.

Module CalculateRatesParams.
Record t : Type := mk {
  decimalsA : Z;
  decimalsB : Z;
  a2b : bool;
  byAmountIn : bool;
  amount : Z;
  swapTicks : list TickData.t;
  currentPool : Pool.t
}.

Definition set_swapTicks (ticks : list TickData.t) (p : t) : t :=
  mk (decimalsA p) (decimalsB p) (a2b p) (byAmountIn p) (amount p) ticks (currentPool p).
End CalculateRatesParams.

Module CalculateRatesResult.
Record t : Type := mk {
  estimatedAmountIn : Z;
  estimatedAmountOut : Z;
  estimatedEndSqrtPrice : Z;
  estimatedFeeAmount : Z;
  isExceed : bool;
  extraComputeLimit : Z;
  amount : Z;
  aToB : bool;
  byAmountIn : bool;
  priceImpactPct : float
}.
End CalculateRatesResult.

(** [Array.prototype.sort(compareFn)]: the array is sorted in place and the
    sort is stable, so for a comparator that is a total preorder the result
    is the one of any stable sort; here, insertion from the right.
    [compareFn a b <= 0] keeps [a] before [b]. *)
Fixpoint Array_sort_insert {A : Type} (compareFn : A -> A -> Z) (x : A) (l : list A) : list A :=
  match l with
  | [] => [x]
  | y :: l' =>
      if compareFn x y <=? 0 then x :: y :: l' else y :: Array_sort_insert compareFn x l'
  end.

Fixpoint Array_sort {A : Type} (compareFn : A -> A -> Z) (l : list A) : list A :=
  match l with
  | [] => []
  | x :: l' => Array_sort_insert compareFn x (Array_sort compareFn l')
  end.

Module SwapModule.

Section Methods.

(** [computeSwap] of [math/clmm] is not among the sources: the simulation
    proper, a function of its arguments that returns the swap result or
    throws. *)
Variable computeSwap :
  bool -> bool -> Z -> ClmmpoolData.t -> list TickData.t -> Outcome SwapResult.t.

(** The bounds of the sqrt price ([math/utils]), not among the sources. *)
Variables MIN_SQRT_PRICE MAX_SQRT_PRICE : Z.

(** [TickMath.sqrtPriceX64ToPrice(sqrtPrice, decimalsA, decimalsB).toNumber()]
    of [math/tick], not among the sources: the decimal price as a double. *)
Variable sqrtPriceX64ToPrice : Z -> Z -> Z -> float.

(** Modelled from the spec: [SwapUtils.getDefaultSqrtPriceLimit] of
    [math/swap] is not among the sources.  Section 4.2: [MIN_SQRT_PRICE] when
    trading token A into token B, else [MAX_SQRT_PRICE]. *)
Definition getDefaultSqrtPriceLimit (a2b : bool) : Z :=
  if a2b then MIN_SQRT_PRICE else MAX_SQRT_PRICE.

(** [calculateRates(params)].  The first component is [params] as the caller
    finds it after the call: [params.swapTicks.sort] has sorted the caller's
    array, whether or not [computeSwap] throws afterwards.  The calls of
    [console.log] are left out. *)
Definition calculateRates (params : CalculateRatesParams.t)
  : CalculateRatesParams.t * Outcome CalculateRatesResult.t :=
  let currentPool := CalculateRatesParams.currentPool params in
  let poolData := transClmmpoolDataWithoutTicks currentPool in
  let ticks :=
    if CalculateRatesParams.a2b params then
      Array_sort (fun a b => TickData.index b - TickData.index a)
        (CalculateRatesParams.swapTicks params)
    else
      Array_sort (fun a b => TickData.index a - TickData.index b)
        (CalculateRatesParams.swapTicks params) in
  let params := CalculateRatesParams.set_swapTicks ticks params in
  (params,
   Outcome_bind
     (computeSwap (CalculateRatesParams.a2b params) (CalculateRatesParams.byAmountIn params)
        (CalculateRatesParams.amount params) poolData ticks)
     (fun swapResult =>
        let isExceed := false in
        let isExceed :=
          if CalculateRatesParams.byAmountIn params then
            SwapResult.amountIn swapResult <? CalculateRatesParams.amount params
          else
            SwapResult.amountOut swapResult <? CalculateRatesParams.amount params in
        let sqrtPriceLimit := getDefaultSqrtPriceLimit (CalculateRatesParams.a2b params) in
        let isExceed :=
          if CalculateRatesParams.a2b params
             && (SwapResult.nextSqrtPrice swapResult <? sqrtPriceLimit)
          then true else isExceed in
        let isExceed :=
          if negb (CalculateRatesParams.a2b params)
             && (SwapResult.nextSqrtPrice swapResult >? sqrtPriceLimit)
          then true else isExceed in
        let extraComputeLimit := 0 in
        let extraComputeLimit :=
          if (SwapResult.crossTickNum swapResult >? 6)
             && (SwapResult.crossTickNum swapResult <? 40)
          then 22000 * (SwapResult.crossTickNum swapResult - 6) else extraComputeLimit in
        let isExceed :=
          if SwapResult.crossTickNum swapResult >? 40 then true else isExceed in
        let prePrice :=
          sqrtPriceX64ToPrice (ClmmpoolData.currentSqrtPrice poolData)
            (CalculateRatesParams.decimalsA params) (CalculateRatesParams.decimalsB params) in
        let afterPrice :=
          sqrtPriceX64ToPrice (SwapResult.nextSqrtPrice swapResult)
            (CalculateRatesParams.decimalsA params) (CalculateRatesParams.decimalsB params) in
        let priceImpactPct := (abs (prePrice - afterPrice) / prePrice * 100)%float in
        Returned
          (CalculateRatesResult.mk
             (SwapResult.amountIn swapResult)
             (SwapResult.amountOut swapResult)
             (SwapResult.nextSqrtPrice swapResult)
             (SwapResult.feeAmount swapResult)
             isExceed
             extraComputeLimit
             (CalculateRatesParams.amount params)
             (CalculateRatesParams.a2b params)
             (CalculateRatesParams.byAmountIn params)
             priceImpactPct))).

End Methods.

End SwapModule.

(** ** The simulator's check of the amount *)

Module Clmm.

(** Modelled from the spec: [computeSwap] of [math/clmm] is not among the
    sources.  Section 4.3 gives the simulator an amount that "must be > 0",
    and section 7 has an amount that is not positive "rejected immediately,
    not retried" with [InvalidAmount]: the check stands before the loop of
    section 4.3.  That loop, which only a positive amount enters, is the
    parameter [swapLoop]. *)
Definition computeSwap
    (swapLoop : bool -> bool -> Z -> ClmmpoolData.t -> list TickData.t -> Outcome SwapResult.t)
    (aToB byAmountIn : bool) (amount : Z) (poolData : ClmmpoolData.t)
    (swapTicks : list TickData.t) : Outcome SwapResult.t :=
  if amount <=? 0 then Thrown InvalidAmount
  else swapLoop aToB byAmountIn amount poolData swapTicks.

End Clmm.

(** ** Vocabulary of the statements *)

(** The position's recorded fields of rewarder [i] (0, 1 or 2). *)
Definition reward_amount_owed (position : PositionReward.t) (i : nat) : Z :=
  match i with
  | O => PositionReward.reward_amount_owed_0 position
  | S O => PositionReward.reward_amount_owed_1 position
  | _ => PositionReward.reward_amount_owed_2 position
  end.

Definition reward_growth_inside (position : PositionReward.t) (i : nat) : Z :=
  match i with
  | O => PositionReward.reward_growth_inside_0 position
  | S O => PositionReward.reward_growth_inside_1 position
  | _ => PositionReward.reward_growth_inside_2 position
  end.

(** The literal of [posRewardersAmountInternal] above which a wrapped growth
    delta is replaced by [ONE]. *)
Definition growth_delta_threshold : Z := 3402823669209384634633745948738404.

(** One block of [posRewardersAmountInternal], the one of rewarder [i]. *)
Definition owed_entry (pool : Pool.t) (position : PositionReward.t)
    (rewardersInside : list Z) (i : nat) : Outcome RewarderAmountOwed.t :=
  let growthDelta :=
    MathUtil.subUnderflowU128 (rewardersInside !!! i) (reward_growth_inside position i) in
  let growthDelta :=
    if growthDelta >? growth_delta_threshold then MathUtil.ONE else growthDelta in
  Outcome_bind
    (MathUtil.checkMulShiftRight (PositionReward.liquidity position) growthDelta 64 128)
    (fun amountOwed =>
       Outcome_bind (field_at (Pool.rewarder_infos pool) i Rewarder.coinAddress)
         (fun coin_address =>
            Returned (RewarderAmountOwed.mk
                        (reward_amount_owed position i + amountOwed) coin_address))).

(** The blocks of the rewarders [i], [i+1], ... [i+n-1] in sequence: their
    entries, or the first exception. *)
Fixpoint owed_entries (pool : Pool.t) (position : PositionReward.t)
    (rewardersInside : list Z) (i n : nat) : Outcome (list RewarderAmountOwed.t) :=
  match n with
  | O => Returned []
  | S n' =>
      Outcome_bind (owed_entry pool position rewardersInside i)
        (fun e =>
           Outcome_bind (owed_entries pool position rewardersInside (S i) n')
             (fun es => Returned (e :: es)))
  end.

(** [a] may stand before [b] under the comparator. *)
Definition keeps_before {A : Type} (compareFn : A -> A -> Z) (a b : A) : Prop :=
  compareFn a b <= 0.

(** The comparator [calculateRates] sorts with. *)
Definition tick_compareFn (a2b : bool) (a b : TickData.t) : Z :=
  if a2b then TickData.index b - TickData.index a
  else TickData.index a - TickData.index b.

(** The order of traversal: indices descending for A to B, ascending for B
    to A (equal indices side by side). *)
Definition tick_before (a2b : bool) (a b : TickData.t) : Prop :=
  if a2b then TickData.index b <= TickData.index a
  else TickData.index a <= TickData.index b.

(** ** Concrete data for the examples *)

Module Scenario.

Definition rewarder : Rewarder.t :=
  Rewarder.mk "0x2::sui::SUI" (2 ^ 64) 0.

(** A pool of liquidity 1 at tick 0 with one rewarder, last updated at 0. *)
Definition pool : Pool.t :=
  Pool.mk "0xpool" "0xa::a::A" "0xb::b::B" (2 ^ 64) 0 2500 1 2 [rewarder] 0 "0xticks".

Definition sdk : CetusClmmSDK.t := CetusClmmSDK.mk (fun _ => Returned pool).

Definition tick (i : Z) : TickData.t := TickData.mk i 0 0 0 0 [0; 0; 0].

(** A position of liquidity 1 over the ticks [-10, 10], nothing recorded. *)
Definition position : PositionReward.t :=
  PositionReward.mk 1 (-10) 10 0 0 0 0 0 0.

(** A position whose recorded growth of rewarder 0 is one above the present
    one, so that the wrapped delta is [2^128 - 1]. *)
Definition stale_position : PositionReward.t :=
  PositionReward.mk (2 ^ 64) (-10) 10 7 0 0 1 0 0.

(** The instance as constructed, and as one call of [updatePoolRewarder] at
    time 2000 leaves it. *)
Definition fresh_module : RewarderModule.t := RewarderModule.constructor sdk.

Definition updated_module : RewarderModule.t :=
  snd (RewarderModule.updatePoolRewarder "0xpool" 2000 fresh_module).

(** The accrual of a position of [pool] over the ticks [-10, 10]. *)
Definition accrue (position : PositionReward.t)
  : Method RewarderModule.t (list RewarderAmountOwed.t) :=
  RewarderModule.posRewardersAmountInternal TickUtil.getRewardInTickRange
    pool position (tick (-10)) (tick 10).

(** [n] ticks below the current one, the nearest first. *)
Definition ticks_below (n : nat) : list TickData.t :=
  map (fun k => tick (- Z.of_nat (S k))) (seq 0 n).

(** Stand-ins for the collaborators of [calculateRates] that are not among
    the sources: a simulator that answers every request with [swapResult],
    the usual bounds of the sqrt price and a constant price. *)
Definition computeSwap (swapResult : SwapResult.t)
    (a2b byAmountIn : bool) (amount : Z) (poolData : ClmmpoolData.t)
    (ticks : list TickData.t) : Outcome SwapResult.t :=
  Returned swapResult.

Definition MIN_SQRT_PRICE : Z := 4295048016.
Definition MAX_SQRT_PRICE : Z := 79226673515401279992447579055.

Definition sqrtPriceX64ToPrice (sqrtPrice decimalsA decimalsB : Z) : float := 1%float.

Definition calculateRates (swapResult : SwapResult.t) :=
  SwapModule.calculateRates (computeSwap swapResult) MIN_SQRT_PRICE MAX_SQRT_PRICE
    sqrtPriceX64ToPrice.

Definition params (a2b byAmountIn : bool) (amount : Z) (ticks : list TickData.t)
  : CalculateRatesParams.t :=
  CalculateRatesParams.mk 8 8 a2b byAmountIn amount ticks pool.

End Scenario.

(** * More of the SDK *)

(** ** Exceptions of the other modules *)

(** What the functions below can throw: a failed assertion of [bn.js], a
    [TypeError] on reading a property of [undefined], an [Error] with its
    message, and an exception of the methods above. *)
Inductive Raised : Type :=
| AssertionError
| NullReference
| Failure (message : string)
| Escaped (e : Exn).

Inductive Try (A : Type) : Type :=
| Done (a : A)
| Raise (e : Raised).

Arguments Done {A} a.
Arguments Raise {A} e.

Definition Try_bind {A B : Type} (c : Try A) (k : A -> Try B) : Try B :=
  match c with
  | Done a => k a
  | Raise e => Raise e
  end.

Definition escape {A : Type} (o : Outcome A) : Try A :=
  match o with
  | Returned a => Done a
  | Thrown e => Raise (Escaped e)
  end.

Declare Scope try_scope.
Delimit Scope try_scope with try.
Notation "'let?' x ':=' c 'in' k" := (Try_bind c (fun x => k))
  (at level 10, x name, c at level 100, k at level 200) : try_scope.
Notation "'let?' ' p ':=' c 'in' k" := (Try_bind c (fun x => match x with p => k end))
  (at level 10, p strict pattern, c at level 100, k at level 200) : try_scope.

(** ** utils/contracts: the order of symbols *)

Module Contracts.

Definition EQUAL : Z := 0.
Definition LESS_THAN : Z := 1.
Definition GREATER_THAN : Z := 2.

(** [cmp(a, b)] on numbers; [None] is [NaN], which is neither equal to nor
    less than anything. *)
Definition cmp (a b : option Z) : Z :=
  match a, b with
  | Some a, Some b =>
      if a =? b then EQUAL else if a <? b then LESS_THAN else GREATER_THAN
  | _, _ => GREATER_THAN
  end.

(** [s.charCodeAt(i)]: the code unit at [i], [NaN] past the end.  A symbol
    is a string of 8-bit characters here. *)
Definition charCodeAt (s : string) (i : nat) : option Z :=
  match String.get i s with
  | Some c => Some (Z.of_nat (Ascii.nat_of_ascii c))
  | None => None
  end.

(** The [while (i < len)] of [compare]; [remaining] is [len - i]. *)
Fixpoint compare_while (symbolX symbolY : string) (lenCmp : Z) (i remaining : nat) : Z :=
  match remaining with
  | O => lenCmp
  | S remaining' =>
      let elemCmp := cmp (charCodeAt symbolX i) (charCodeAt symbolY i) in
      let i := S i in
      if negb (elemCmp =? 0) then elemCmp
      else compare_while symbolX symbolY lenCmp i remaining'
  end.

Definition compare (symbolX symbolY : string) : Z :=
  let i := O in
  let len :=
    if (String.length symbolX <=? String.length symbolY)%nat
    then String.length symbolX else String.length symbolY in
  let lenCmp :=
    cmp (Some (Z.of_nat (String.length symbolX))) (Some (Z.of_nat (String.length symbolY))) in
  compare_while symbolX symbolY lenCmp i (len - i).

Definition isSortedSymbols (symbolX symbolY : string) : bool :=
  compare symbolX symbolY =? LESS_THAN.

End Contracts.

(** ** modules/routerModule: the scaled arithmetic *)

Module BN.

(** [new BN(x)] of a number that is an integer: [bn.js] asserts
    [|x| < 0x20000000000000]. *)
Definition of_number (x : Z) : Try Z :=
  if Z.abs x <? 2 ^ 53 then Done x else Raise AssertionError.

(** [a.div(b)] and [a.mod(b)]: the quotient truncated towards zero and the
    remainder with the sign of [a]; [bn.js] asserts that [b] is not zero. *)
Definition div (a b : Z) : Try Z :=
  if b =? 0 then Raise AssertionError else Done (a ÷ b).

Definition mod_ (a b : Z) : Try Z :=
  if b =? 0 then Raise AssertionError else Done (Z.rem a b).

(** [Number(a)]: the decimal string of [a] read as a double, that is [a]
    rounded to 53 significant bits, to nearest and to even on a tie (for
    [|a| < 2^1024], beyond which the double is an infinity). *)
Definition toNumber (a : Z) : Z :=
  if Z.abs a <? 2 ^ 53 then a
  else
    let ulp := 2 ^ (Z.log2 (Z.abs a) - 52) in
    let q := Z.abs a / ulp in
    let r := Z.abs a mod ulp in
    let q := if (2 * r >? ulp) || ((2 * r =? ulp) && Z.odd q) then q + 1 else q in
    Z.sgn a * (q * ulp).

End BN.

Module RouterMath.

Local Open Scope try_scope.

Definition FLOAT_SCALING_U128 : Z := 1000000000.

Definition unsafe_mul_round (x y : Z) : Try (bool * Z) :=
  let? xB := BN.of_number x in
  let? yB := BN.of_number y in
  let is_round_down := true in
  let? remainder := BN.mod_ (xB * yB) FLOAT_SCALING_U128 in
  let is_round_down := if remainder =? 0 then false else is_round_down in
  let? quotient := BN.div (xB * yB) FLOAT_SCALING_U128 in
  Done (is_round_down, quotient).

Definition unsafe_div_round (x y : Z) : Try (bool * Z) :=
  let? xB := BN.of_number x in
  let? yB := BN.of_number y in
  let is_round_down := true in
  let? remainder := BN.mod_ (xB * FLOAT_SCALING_U128) yB in
  let is_round_down := if remainder =? 0 then false else is_round_down in
  let? quotient := BN.div (xB * FLOAT_SCALING_U128) yB in
  Done (is_round_down, quotient).

Definition unsafe_div (x y : Z) : Try Z :=
  let? '(_, result) := unsafe_div_round x y in
  Done (BN.toNumber result).

Definition unsafe_mul (x y : Z) : Try Z :=
  let? '(_, result) := unsafe_mul_round x y in
  Done (BN.toNumber result).

End RouterMath.

(** ** utils/transaction-util: [buildCoinTypePair] *)

Module TransactionUtil.

(** An element read from an array is [None] when the index is past the end
    ([undefined]).  The [for] of [buildCoinTypePair], from [i] on;
    [remaining] is [coinTypes.length - 1 - i]. *)
Fixpoint buildCoinTypePair_for (coinTypes : list string) (partitionQuantities : list Z)
    (i remaining : nat) (coinTypePair : list (list (option string)))
  : list (list (option string)) :=
  match remaining with
  | O => coinTypePair
  | S remaining' =>
      match partitionQuantities !! (i - 1)%nat with
      | Some 0 =>
          buildCoinTypePair_for coinTypes partitionQuantities (S i) remaining' coinTypePair
      | _ =>
          let pair := [coinTypes !! 0%nat; coinTypes !! i;
                       coinTypes !! (length coinTypes - 1)%nat] in
          buildCoinTypePair_for coinTypes partitionQuantities (S i) remaining'
            (coinTypePair ++ [pair])
      end
  end.

Definition buildCoinTypePair (coinTypes : list string) (partitionQuantities : list Z)
  : list (list (option string)) :=
  let coinTypePair := [] in
  if (length coinTypes =? 2)%nat then
    let pair := [coinTypes !! 0%nat; coinTypes !! 1%nat] in
    coinTypePair ++ [pair]
  else
    let directPair := [coinTypes !! 0%nat; coinTypes !! (length coinTypes - 1)%nat] in
    let coinTypePair := coinTypePair ++ [directPair] in
    buildCoinTypePair_for coinTypes partitionQuantities 1 (length coinTypes - 1 - 1) coinTypePair.

End TransactionUtil.

(** ** The events of a simulated transaction block *)

(** The [parsedJson] of an event that reports a simulated swap.  A number of
    the chain arrives as a decimal string: a field holds the integer of its
    string, or [None] when the field is not there ([undefined]). *)
Module SwapEventData.
Record t : Type := mk {
  amount_in : option Z;
  amount_out : option Z;
  amount_medium : option Z;
  fee_amount : option Z;
  after_sqrt_price : option Z;
  target_sqrt_price_ab : option Z;
  target_sqrt_price_cd : option Z;
  current_sqrt_price_ab : option Z;
  current_sqrt_price_cd : option Z;
  is_exceed : bool
}.
End SwapEventData.

Module SwapEvent.
Record t : Type := mk {
  current_sqrt_price : option Z;
  data : SwapEventData.t
}.
End SwapEvent.

(** [new BN(v)] of a field: [bn.js] reads [undefined] as 0. *)
Definition BN_of_field (v : option Z) : Z := default 0 v.

(** ** SwapModule: [preSwapWithMultiPool] *)

Module PreSwapWithMultiPoolParams.
Record t : Type := mk {
  poolAddresses : list string;
  a2b : bool;
  byAmountIn : bool;
  amount : string;
  coinTypeA : string;
  coinTypeB : string
}.
End PreSwapWithMultiPoolParams.

Module TransPreSwapWithMultiPoolParams.
Record t : Type := mk {
  poolAddress : option string;
  a2b : bool;
  byAmountIn : bool;
  amount : string;
  coinTypeA : string;
  coinTypeB : string
}.
End TransPreSwapWithMultiPoolParams.

Module SwapWithMultiPoolData.
Record t : Type := mk {
  poolAddress : option string;
  estimatedAmountIn : option Z;
  estimatedAmountOut : option Z;
  estimatedEndSqrtPrice : option Z;
  estimatedStartSqrtPrice : option Z;
  estimatedFeeAmount : option Z;
  isExceed : bool;
  amount : string;
  aToB : bool;
  byAmountIn : bool
}.
End SwapWithMultiPoolData.

Module PreSwap.

Section Methods.

(** [U64_MAX] of [math/utils], whose source is missing. *)
Variable U64_MAX : Z.

(** [transformSwapWithMultiPoolData(params, jsonData)].  A decimal string
    that is there is truthy; [estimatedAmountIn] is [None] for the empty
    string the source returns when a summand is missing. *)
Definition transformSwapWithMultiPoolData (params : TransPreSwapWithMultiPoolParams.t)
    (jsonData : SwapEvent.t) : SwapWithMultiPoolData.t :=
  let data := SwapEvent.data jsonData in
  let estimatedAmountIn :=
    match SwapEventData.amount_in data, SwapEventData.fee_amount data with
    | Some amount_in, Some fee_amount => Some (amount_in + fee_amount)
    | _, _ => None
    end in
  SwapWithMultiPoolData.mk
    (TransPreSwapWithMultiPoolParams.poolAddress params)
    estimatedAmountIn
    (SwapEventData.amount_out data)
    (SwapEventData.after_sqrt_price data)
    (SwapEvent.current_sqrt_price jsonData)
    (SwapEventData.fee_amount data)
    (SwapEventData.is_exceed data)
    (TransPreSwapWithMultiPoolParams.amount params)
    (TransPreSwapWithMultiPoolParams.a2b params)
    (TransPreSwapWithMultiPoolParams.byAmountIn params).

(** The [for] of [preSwapWithMultiPool] from index [i] on; [rest] holds
    [valueData[i]], [valueData[i+1]], ...  Both branches compare
    [amount_out]. *)
Fixpoint preSwapWithMultiPool_for (params : PreSwapWithMultiPoolParams.t)
    (rest : list SwapEvent.t) (i : nat) (tempMaxAmount : Z) (tempIndex : nat) : Z * nat :=
  match rest with
  | [] => (tempMaxAmount, tempIndex)
  | item :: rest' =>
      if SwapEventData.is_exceed (SwapEvent.data item) then
        preSwapWithMultiPool_for params rest' (S i) tempMaxAmount tempIndex
      else if PreSwapWithMultiPoolParams.byAmountIn params then
        let amount := BN_of_field (SwapEventData.amount_out (SwapEvent.data item)) in
        if amount >? tempMaxAmount then
          preSwapWithMultiPool_for params rest' (S i) amount i
        else preSwapWithMultiPool_for params rest' (S i) tempMaxAmount tempIndex
      else
        let amount := BN_of_field (SwapEventData.amount_out (SwapEvent.data item)) in
        if amount <? tempMaxAmount then
          preSwapWithMultiPool_for params rest' (S i) amount i
        else preSwapWithMultiPool_for params rest' (S i) tempMaxAmount tempIndex
  end.

(** [preSwapWithMultiPool(params)], from the events on: [valueData] are the
    [CalculatedSwapResultEvent]s of the simulated transaction block, one
    [calculate_swap_result] call per pool address, in their order.  The
    result is [None] for [null]. *)
Definition preSwapWithMultiPool (params : PreSwapWithMultiPoolParams.t)
    (valueData : list SwapEvent.t) : Try (option SwapWithMultiPoolData.t) :=
  if (length valueData =? 0)%nat then Done None
  else if negb (length valueData =? length (PreSwapWithMultiPoolParams.poolAddresses params))%nat
  then Raise (Failure "valueData.length !== params.pools.length")
  else
    let tempMaxAmount := if PreSwapWithMultiPoolParams.byAmountIn params then MathUtil.ZERO else U64_MAX in
    let tempIndex := O in
    let '(tempMaxAmount, tempIndex) :=
      preSwapWithMultiPool_for params valueData 0 tempMaxAmount tempIndex in
    match valueData !! tempIndex with
    | None => Raise NullReference
    | Some item =>
        Done (Some (transformSwapWithMultiPoolData
                      (TransPreSwapWithMultiPoolParams.mk
                         (PreSwapWithMultiPoolParams.poolAddresses params !! tempIndex)
                         (PreSwapWithMultiPoolParams.a2b params)
                         (PreSwapWithMultiPoolParams.byAmountIn params)
                         (PreSwapWithMultiPoolParams.amount params)
                         (PreSwapWithMultiPoolParams.coinTypeA params)
                         (PreSwapWithMultiPoolParams.coinTypeB params))
                      item))
    end.

End Methods.

End PreSwap.

(** What the loop has found after the events [done]: no event that is not
    exceeded beats [m]; and either nothing has beaten the start value, or
    [idx] is the first event that is not exceeded and has the best amount,
    [m]. *)
Definition best_so_far (s m0 : Z) (idx0 : nat) (done : list SwapEvent.t) (m : Z) (idx : nat)
  : Prop :=
  let out item := BN_of_field (SwapEventData.amount_out (SwapEvent.data item)) in
  let exceeded item := SwapEventData.is_exceed (SwapEvent.data item) in
  (forall j item, done !! j = Some item -> exceeded item = false -> s * out item <= s * m)
  /\ ((idx = idx0 /\ m = m0)
      \/ exists item,
           done !! idx = Some item
           /\ exceeded item = false
           /\ out item = m
           /\ s * m0 < s * m
           /\ forall j item', (j < idx)%nat -> done !! j = Some item' ->
                exceeded item' = false -> s * out item' < s * m).
(** ** RouterModule: [preRouterSwapA2B2C] *)

Module PreRouterSwapParams.
Record t : Type := mk {
  stepNums : Z;
  poolAB : string;
  poolBC : option string;
  a2b : bool;
  b2c : option bool;
  byAmountIn : bool;
  amount : Z;
  coinTypeA : string;
  coinTypeB : string;
  coinTypeC : option string
}.
End PreRouterSwapParams.

Module PreSwapResult.
Record t : Type := mk {
  index : nat;
  amountIn : Z;
  amountMedium : option Z;
  amountOut : Z;
  targetSqrtPrice : list (option Z);
  currentSqrtPrice : list (option Z);
  isExceed : bool;
  stepNum : Z
}.
End PreSwapResult.

Module PreRouter.

Local Open Scope try_scope.

Section Methods.

Variable U64_MAX : Z.

(** [params[i]] with a property read from it: a [TypeError] past the end. *)
Definition param_at (params : list PreRouterSwapParams.t) (i : nat) : Try PreRouterSwapParams.t :=
  match params !! i with
  | Some param => Done param
  | None => Raise NullReference
  end.

(** The [for] of [preRouterSwapA2B2C] from index [i] on; [first] is
    [params[0]]. *)
Fixpoint preRouterSwapA2B2C_for (params : list PreRouterSwapParams.t)
    (first : PreRouterSwapParams.t) (rest : list SwapEvent.t) (i : nat)
    (tempMaxAmount : Z) (tempIndex : nat) : Try (Z * nat) :=
  match rest with
  | [] => Done (tempMaxAmount, tempIndex)
  | item :: rest' =>
      let data := SwapEvent.data item in
      if SwapEventData.is_exceed data then
        preRouterSwapA2B2C_for params first rest' (S i) tempMaxAmount tempIndex
      else if PreRouterSwapParams.byAmountIn first then
        let amount := BN_of_field (SwapEventData.amount_out data) in
        if amount >? tempMaxAmount then
          preRouterSwapA2B2C_for params first rest' (S i) amount i
        else preRouterSwapA2B2C_for params first rest' (S i) tempMaxAmount tempIndex
      else
        let? param := param_at params i in
        let amount :=
          if PreRouterSwapParams.stepNums param >? 1 then
            BN_of_field (SwapEventData.amount_in data)
          else
            BN_of_field (SwapEventData.amount_in data)
            + BN_of_field (SwapEventData.fee_amount data) in
        if amount <? tempMaxAmount then
          preRouterSwapA2B2C_for params first rest' (S i) amount i
        else preRouterSwapA2B2C_for params first rest' (S i) tempMaxAmount tempIndex
  end.

(** [preRouterSwapA2B2C(params)], from the events on: [valueData] are the
    [CalculatedRouterSwapResultEvent]s and [ExpectSwapResultEvent]s of the
    simulated transaction block, in their order.  [None] is [null]. *)
Definition preRouterSwapA2B2C (params : list PreRouterSwapParams.t)
    (valueData : list SwapEvent.t) : Try (option PreSwapResult.t) :=
  match params with
  | [] => Done None
  | first :: _ =>
      if (length valueData =? 0)%nat then Done None
      else
        let tempMaxAmount :=
          if PreRouterSwapParams.byAmountIn first then MathUtil.ZERO else U64_MAX in
        let tempIndex := O in
        let? '(tempMaxAmount, tempIndex) :=
          preRouterSwapA2B2C_for params first valueData 0 tempMaxAmount tempIndex in
        let? chosen := param_at params tempIndex in
        match valueData !! tempIndex with
        | None => Raise NullReference
        | Some item =>
            let data := SwapEvent.data item in
            let '(targetSqrtPrice, currentSqrtPrice) :=
              if PreRouterSwapParams.stepNums chosen >? 1 then
                ([SwapEventData.target_sqrt_price_ab data; SwapEventData.target_sqrt_price_cd data],
                 [SwapEventData.current_sqrt_price_ab data; SwapEventData.current_sqrt_price_cd data])
              else
                ([SwapEventData.after_sqrt_price data], [SwapEvent.current_sqrt_price item]) in
            Done (Some (PreSwapResult.mk
                          tempIndex
                          (if PreRouterSwapParams.byAmountIn first
                           then PreRouterSwapParams.amount chosen else tempMaxAmount)
                          (SwapEventData.amount_medium data)
                          (if PreRouterSwapParams.byAmountIn first
                           then tempMaxAmount else PreRouterSwapParams.amount chosen)
                          targetSqrtPrice
                          currentSqrtPrice
                          (SwapEventData.is_exceed data)
                          (PreRouterSwapParams.stepNums chosen)))
        end
  end.

End Methods.

End PreRouter.

(** ** RewarderModule: the amounts of a whole account *)

(** A position as [getPositionList] delivers it: its object id and the
    fields the accrual reads. *)
Module Position.
Record t : Type := mk {
  pos_object_id : string;
  rewards : PositionReward.t
}.
End Position.

Module FetchPosRewardParams.
Record t : Type := mk {
  poolAddress : string;
  positionId : string;
  coinTypeA : string;
  coinTypeB : string;
  rewarderInfo : list Rewarder.t
}.
End FetchPosRewardParams.

Module PosRewarderResult.
Record t : Type := mk {
  poolAddress : string;
  positionId : string;
  rewarderAmountOwed : list RewarderAmountOwed.t
}.
End PosRewarderResult.

Module RewarderQueries.

Import MathUtil.

Section Methods.

Variable getRewardInTickRange :
  Pool.t -> TickData.t -> TickData.t -> Z -> Z -> list Z -> list Z.

(** [sdk.Position.getPositionList(account, [poolObjectId])] and
    [sdk.Pool.getTickDataByIndex(ticksHandle, index)]: requests to the
    chain, which deliver or fail. *)
Variable getPositionList : string -> list string -> Outcome (list Position.t).
Variable getTickDataByIndex : string -> Z -> Outcome TickData.t.

(** [getPoolLowerAndUpperTicks(ticksHandle, positions)]: the [for] over
    [positions], then the pair of arrays. *)
Fixpoint getPoolLowerAndUpperTicks_for (ticksHandle : string) (positions : list Position.t)
    (lowerTicks upperTicks : list TickData.t) : Outcome (list TickData.t * list TickData.t) :=
  match positions with
  | [] => Returned (lowerTicks, upperTicks)
  | pos :: positions' =>
      Outcome_bind
        (getTickDataByIndex ticksHandle
           (PositionReward.tick_lower_index (Position.rewards pos)))
        (fun tickLower =>
           Outcome_bind
             (getTickDataByIndex ticksHandle
                (PositionReward.tick_upper_index (Position.rewards pos)))
             (fun tickUpper =>
                getPoolLowerAndUpperTicks_for ticksHandle positions'
                  (lowerTicks ++ [tickLower]) (upperTicks ++ [tickUpper])))
  end.

Definition getPoolLowerAndUpperTicks (ticksHandle : string) (positions : list Position.t)
  : Outcome (list TickData.t * list TickData.t) :=
  getPoolLowerAndUpperTicks_for ticksHandle positions [] [].

(** [rewarderAmount[j] = rewarderAmount[j].add(posRewarderInfo[j].amount_owed)]
    for [j], [j+1], ... below 3; [remaining] is [3 - j]. *)
Fixpoint poolRewardersAmount_inner (posRewarderInfo : list RewarderAmountOwed.t)
    (j remaining : nat) (rewarderAmount : list Z) : Outcome (list Z) :=
  match remaining with
  | O => Returned rewarderAmount
  | S remaining' =>
      match rewarderAmount !! j, posRewarderInfo !! j with
      | Some sum, Some owed =>
          poolRewardersAmount_inner posRewarderInfo (S j) remaining'
            (<[j := sum + RewarderAmountOwed.amount_owed owed]> rewarderAmount)
      | _, _ => Thrown TypeError
      end
  end.

Local Open Scope method_scope.

(** The [for] over [positions] from index [i] on; [rest] holds
    [positions[i]], [positions[i+1]], ... *)
Fixpoint poolRewardersAmount_for (pool : Pool.t) (tickDatas : list TickData.t * list TickData.t)
    (rest : list Position.t) (i : nat) (rewarderAmount : list Z)
  : Method RewarderModule.t (list Z) :=
  match rest with
  | [] => ret rewarderAmount
  | position :: rest' =>
      let* tickLower := lift (field_at (fst tickDatas) i id) in
      let* tickUpper := lift (field_at (snd tickDatas) i id) in
      let* posRewarderInfo :=
        RewarderModule.posRewardersAmountInternal getRewardInTickRange
          pool (Position.rewards position) tickLower tickUpper in
      let* rewarderAmount := lift (poolRewardersAmount_inner posRewarderInfo 0 3 rewarderAmount) in
      poolRewardersAmount_for pool tickDatas rest' (S i) rewarderAmount
  end.

(** [poolRewardersAmount(account, poolObjectId)]; [currentTime] is what
    [Date.parse(new Date().toString())] reads off the clock. *)
Definition poolRewardersAmount (currentTime : Z) (account poolObjectId : string)
  : Method RewarderModule.t (list Z) :=
  let* pool := RewarderModule.updatePoolRewarder poolObjectId currentTime in
  let* positions := lift (getPositionList account [poolObjectId]) in
  let* tickDatas := lift (getPoolLowerAndUpperTicks (Pool.ticks_handle pool) positions) in
  let rewarderAmount := [ZERO; ZERO; ZERO] in
  poolRewardersAmount_for pool tickDatas positions 0 rewarderAmount.

End Methods.

End RewarderQueries.

(** The amount of rewarder [j] in one position's entries, and its total over
    the entries of several positions. *)
Definition owed_at (info : list RewarderAmountOwed.t) (j : nat) : Z :=
  default 0 (RewarderAmountOwed.amount_owed <$> info !! j).

Definition total_owed (infos : list (list RewarderAmountOwed.t)) (j : nat) : Z :=
  foldr (fun info sum => owed_at info j + sum) 0 infos.

(** ** RewarderModule: the amounts as the chain computes them *)

Module RewarderFetch.

Import MathUtil.
Local Open Scope try_scope.

Section Methods.

(** The simulation of the block of [fetch_position_rewards] calls that
    [fetchPosRewardersAmount] builds, one call per element of [params]: the
    [parsedJson.data] of its [FetchPositionRewardsEvent]s, each an array of
    amounts, or the failure of the request. *)
Variable devInspectPositionRewards : list FetchPosRewardParams.t -> Try (list (list Z)).

Variable getPositionList : string -> list string -> Outcome (list Position.t).

(** The inner [for] of [fetchPosRewardersAmount] from [j] on; [rest] holds
    [rewarderInfo[j]], [rewarderInfo[j+1]], ... *)
Fixpoint fetchPosRewardersAmount_inner (data : list Z) (rest : list Rewarder.t) (j : nat)
    (rewarderAmountOwed : list RewarderAmountOwed.t) : list RewarderAmountOwed.t :=
  match rest with
  | [] => rewarderAmountOwed
  | rewarder :: rest' =>
      fetchPosRewardersAmount_inner data rest' (S j)
        (rewarderAmountOwed
           ++ [RewarderAmountOwed.mk (BN_of_field (data !! j)) (Rewarder.coinAddress rewarder)])
  end.

(** The outer [for] from [i] on; [rest] holds [valueData[i]], ... *)
Fixpoint fetchPosRewardersAmount_for (params : list FetchPosRewardParams.t)
    (rest : list (list Z)) (i : nat) (result : list PosRewarderResult.t)
  : Try (list PosRewarderResult.t) :=
  match rest with
  | [] => Done result
  | data :: rest' =>
      match params !! i with
      | None => Raise NullReference
      | Some param =>
          let posRrewarderResult :=
            PosRewarderResult.mk
              (FetchPosRewardParams.poolAddress param)
              (FetchPosRewardParams.positionId param)
              (fetchPosRewardersAmount_inner data (FetchPosRewardParams.rewarderInfo param) 0 []) in
          fetchPosRewardersAmount_for params rest' (S i) (result ++ [posRrewarderResult])
      end
  end.

(** [fetchPosRewardersAmount(params)]; [None] is [null]. *)
Definition fetchPosRewardersAmount (params : list FetchPosRewardParams.t)
  : Try (option (list PosRewarderResult.t)) :=
  let? valueData := devInspectPositionRewards params in
  if (length valueData =? 0)%nat then Done None
  else if negb (length valueData =? length params)%nat
  then Raise (Failure "valueData.length !== params.pools.length")
  else
    let? result := fetchPosRewardersAmount_for params valueData 0 [] in
    Done (Some result).

(** [rewarderAmount[j] = rewarderAmount[j].add(...)] for the entries of one
    position from [j] on. *)
Fixpoint fetchPoolRewardersAmount_inner (rest : list RewarderAmountOwed.t) (j : nat)
    (rewarderAmount : list Z) : Try (list Z) :=
  match rest with
  | [] => Done rewarderAmount
  | owed :: rest' =>
      match rewarderAmount !! j with
      | None => Raise NullReference
      | Some sum =>
          fetchPoolRewardersAmount_inner rest' (S j)
            (<[j := sum + RewarderAmountOwed.amount_owed owed]> rewarderAmount)
      end
  end.

Fixpoint fetchPoolRewardersAmount_for (result : list PosRewarderResult.t)
    (rewarderAmount : list Z) : Try (list Z) :=
  match result with
  | [] => Done rewarderAmount
  | posRewarderInfo :: result' =>
      let? rewarderAmount :=
        fetchPoolRewardersAmount_inner
          (PosRewarderResult.rewarderAmountOwed posRewarderInfo) 0 rewarderAmount in
      fetchPoolRewardersAmount_for result' rewarderAmount
  end.

(** [fetchPoolRewardersAmount(account, poolObjectId)] on the instance
    [self], of which it reads the SDK. *)
Definition fetchPoolRewardersAmount (self : RewarderModule.t) (account poolObjectId : string)
  : Try (list Z) :=
  let? pool := escape (CetusClmmSDK.getPool (RewarderModule._sdk self) poolObjectId) in
  let? positions := escape (getPositionList account [poolObjectId]) in
  let params :=
    map (fun position =>
           FetchPosRewardParams.mk
             (Pool.poolAddress pool)
             (Position.pos_object_id position)
             (Pool.coinTypeA pool)
             (Pool.coinTypeB pool)
             (Pool.rewarder_infos pool))
      positions in
  let? result := fetchPosRewardersAmount params in
  let rewarderAmount := [ZERO; ZERO; ZERO] in
  match result with
  | Some result => fetchPoolRewardersAmount_for result rewarderAmount
  | None => Done rewarderAmount
  end.

End Methods.

End RewarderFetch.

(** The amount of rewarder [j] that one event reports, and its total over
    several events. *)
Definition reported_at (data : list Z) (j : nat) : Z := BN_of_field (data !! j).

Definition total_reported (valueData : list (list Z)) (j : nat) : Z :=
  foldr (fun data sum => reported_at data j + sum) 0 valueData.

(** ** utils/transaction-util: [fixSwapParams] *)

Module SwapParams.
Record t : Type := mk {
  pool_id : string;
  coinTypeA : string;
  coinTypeB : string;
  a2b : bool;
  by_amount_in : bool;
  amount : Z;
  amount_limit : Z;
  swap_partner : option string
}.

Definition set_amount_limit (v : Z) (p : t) : t :=
  mk (pool_id p) (coinTypeA p) (coinTypeB p) (a2b p) (by_amount_in p) (amount p) v
     (swap_partner p).
End SwapParams.

(** The argument [gasEstimateArg] of the swap builders; [slippage] is a
    [Percentage] of [math/percentage], whose source is missing. *)
Module GasEstimateArg.
Record t (Percentage : Type) : Type := mk {
  byAmountIn : bool;
  slippage : Percentage;
  decimalsA : Z;
  decimalsB : Z;
  swapTicks : list TickData.t;
  currentPool : Pool.t
}.
Arguments mk {Percentage}.
Arguments byAmountIn {Percentage}.
Arguments slippage {Percentage}.
Arguments decimalsA {Percentage}.
Arguments decimalsB {Percentage}.
Arguments swapTicks {Percentage}.
Arguments currentPool {Percentage}.

Definition set_swapTicks {Percentage : Type} (ticks : list TickData.t) (g : t Percentage)
  : t Percentage :=
  mk (byAmountIn g) (slippage g) (decimalsA g) (decimalsB g) ticks (currentPool g).
End GasEstimateArg.

Module SwapTransaction.

Section Methods.

(** The collaborators of [calculateRates], as above. *)
Variable computeSwap :
  bool -> bool -> Z -> ClmmpoolData.t -> list TickData.t -> Outcome SwapResult.t.
Variables MIN_SQRT_PRICE MAX_SQRT_PRICE : Z.
Variable sqrtPriceX64ToPrice : Z -> Z -> Z -> float.

(** [adjustForSlippage(n, slippage, adjustUp)] of [math/percentage], whose
    source is missing. *)
Variable Percentage : Type.
Variable adjustForSlippage : Z -> Percentage -> bool -> Z.

(** [TransactionUtil.fixSwapParams(sdk, params, gasEstimateArg)].  The first
    component is [gasEstimateArg] as the caller finds it after the call: its
    [swapTicks] array is the one [calculateRates] is handed and sorts.
    [params] is changed only by the last assignment, so an exception leaves
    it as it was. *)
Definition fixSwapParams (params : SwapParams.t) (gasEstimateArg : GasEstimateArg.t Percentage)
  : GasEstimateArg.t Percentage * Outcome SwapParams.t :=
  let '(request, res) :=
    SwapModule.calculateRates computeSwap MIN_SQRT_PRICE MAX_SQRT_PRICE sqrtPriceX64ToPrice
      (CalculateRatesParams.mk
         (GasEstimateArg.decimalsA gasEstimateArg)
         (GasEstimateArg.decimalsB gasEstimateArg)
         (SwapParams.a2b params)
         (SwapParams.by_amount_in params)
         (SwapParams.amount params)
         (GasEstimateArg.swapTicks gasEstimateArg)
         (GasEstimateArg.currentPool gasEstimateArg)) in
  let gasEstimateArg :=
    GasEstimateArg.set_swapTicks (CalculateRatesParams.swapTicks request) gasEstimateArg in
  (gasEstimateArg,
   Outcome_bind res
     (fun res =>
        let toAmount :=
          if GasEstimateArg.byAmountIn gasEstimateArg
          then CalculateRatesResult.estimatedAmountOut res
          else CalculateRatesResult.estimatedAmountIn res in
        let amountLimit :=
          adjustForSlippage toAmount (GasEstimateArg.slippage gasEstimateArg)
            (negb (GasEstimateArg.byAmountIn gasEstimateArg)) in
        Returned (SwapParams.set_amount_limit amountLimit params))).

End Methods.

End SwapTransaction.

(** ** modules/routerModule: coins, paths and pool addresses *)

Module CoinNode.
Record t : Type := mk {
  address : string;
  decimals : Z
}.
End CoinNode.

Module CoinProvider.
Record t : Type := mk {
  coins : list CoinNode.t
}.
End CoinProvider.

(** [addressMap] is a [Map<number, string>]: pool addresses by fee tier. *)
Module PathLink.
Record t : Type := mk {
  base : string;
  quote : string;
  addressMap : gmap Z string
}.

Definition set_base (v : string) (p : t) : t := mk v (quote p) (addressMap p).
Definition set_quote (v : string) (p : t) : t := mk (base p) v (addressMap p).
End PathLink.

Module PathProvider.
Record t : Type := mk {
  paths : list PathLink.t
}.
End PathProvider.

Module AddressAndDirection.
Record t : Type := mk {
  addressMap : gmap Z string;
  direction : bool
}.
End AddressAndDirection.

Module PairSymbol.
Record t : Type := mk {
  pair : string;
  reversePair : string
}.
End PairSymbol.

Definition _pairSymbol (base quote : string) : PairSymbol.t :=
  PairSymbol.mk (base +:+ "-" +:+ quote) (quote +:+ "-" +:+ base).

(** The part of [RouterModule] that keeps the coins, the paths and the pool
    addresses.  A provider and its path links are values here: every
    provider handed to [loadGraph] is taken to be an object of its own, with
    path links of its own. *)
Module RouterModule.

Section Methods.

(** The graph is an object of the library [@syntsugar/cc-graph].
    [addEdge graph base quote] stands for the three calls
    [graph.getVertexByKey(base) ?? new GraphVertex(base)], the same for
    [quote], and [graph.addEdge(new GraphEdge(vertexA, vertexB))]: the graph
    afterwards, or what the library throws. *)
Variable Graph : Type.
Variable addEdge : Graph -> string -> string -> Try Graph.

(** [base.localeCompare(quote)], a built-in whose order depends on the
    locale of the host. *)
Variable localeCompare : string -> string -> Z.

Record t : Type := mk {
  graph : Graph;
  pathProviders : list PathProvider.t;
  coinProviders : CoinProvider.t;
  _coinAddressMap : gmap string CoinNode.t;
  poolAddressMap : gmap string (gmap Z string)
}.

Definition set_graph (v : Graph) (self : t) : t :=
  mk v (pathProviders self) (coinProviders self) (_coinAddressMap self) (poolAddressMap self).
Definition set_pathProviders (v : list PathProvider.t) (self : t) : t :=
  mk (graph self) v (coinProviders self) (_coinAddressMap self) (poolAddressMap self).
Definition set_coinProviders (v : CoinProvider.t) (self : t) : t :=
  mk (graph self) (pathProviders self) v (_coinAddressMap self) (poolAddressMap self).
Definition set__coinAddressMap (v : gmap string CoinNode.t) (self : t) : t :=
  mk (graph self) (pathProviders self) (coinProviders self) v (poolAddressMap self).
Definition set_poolAddressMap (v : gmap string (gmap Z string)) (self : t) : t :=
  mk (graph self) (pathProviders self) (coinProviders self) (_coinAddressMap self) v.

(** [new RouterModule(sdk)], given the graph [new Graph()] builds. *)
Definition constructor (emptyGraph : Graph) : t :=
  mk emptyGraph [] (CoinProvider.mk []) ∅ ∅.

Definition getPoolAddressMapAndDirection (self : t) (base quote : string)
  : option AddressAndDirection.t :=
  let symbols := _pairSymbol base quote in
  let addressMap := poolAddressMap self !! PairSymbol.pair symbols in
  match addressMap with
  | Some addressMap => Some (AddressAndDirection.mk addressMap true)
  | None =>
      let addressMap := poolAddressMap self !! PairSymbol.reversePair symbols in
      match addressMap with
      | Some addressMap => Some (AddressAndDirection.mk addressMap false)
      | None => None
      end
  end.

(** The [forEach] of [setCoinList], over the coins that remain. *)
Fixpoint setCoinList_forEach (coins : list CoinNode.t) (self : t) : t :=
  match coins with
  | [] => self
  | coin :: rest =>
      setCoinList_forEach rest
        (set__coinAddressMap (<[CoinNode.address coin := coin]> (_coinAddressMap self)) self)
  end.

Definition setCoinList (self : t) : t :=
  setCoinList_forEach (CoinProvider.coins (coinProviders self)) self.

(** The [for] of [addPathProvider], over the path links that remain; each
    is read once and then written. *)
Fixpoint addPathProvider_for (paths : list PathLink.t) : list PathLink.t :=
  match paths with
  | [] => []
  | path :: rest =>
      let base := PathLink.base path in
      let quote := PathLink.quote path in
      let compareResult := localeCompare base quote in
      let path :=
        if compareResult <? 0
        then PathLink.set_quote base (PathLink.set_base quote path) else path in
      let path :=
        if String.eqb base "0x2::sui::SUI"
        then PathLink.set_quote base (PathLink.set_base quote path) else path in
      let path :=
        if String.eqb quote "0x2::sui::SUI"
        then PathLink.set_quote quote (PathLink.set_base base path) else path in
      path :: addPathProvider_for rest
  end.

(** [addPathProvider(provider)]; the first component is [provider] as the
    caller finds it after the call. *)
Definition addPathProvider (provider : PathProvider.t) (self : t) : PathProvider.t * t :=
  let provider := PathProvider.mk (addPathProvider_for (PathProvider.paths provider)) in
  (provider, set_pathProviders (pathProviders self ++ [provider]) self).

Definition addCoinProvider (provider : CoinProvider.t) (self : t) : t :=
  set_coinProviders provider self.

Definition tokenInfo (self : t) (key : string) : option CoinNode.t :=
  _coinAddressMap self !! key.

(** The inner [forEach] of [loadGraph], over the path links that remain.
    An exception ends it and leaves the fields as they are by then. *)
Fixpoint loadGraph_paths (paths : list PathLink.t) (self : t) : Try unit * t :=
  match paths with
  | [] => (Done tt, self)
  | path :: rest =>
      match addEdge (graph self) (PathLink.base path) (PathLink.quote path) with
      | Raise e => (Raise e, self)
      | Done graph =>
          let self := set_graph graph self in
          let coinA := _coinAddressMap self !! PathLink.base path in
          let coinB := _coinAddressMap self !! PathLink.quote path in
          let self :=
            match coinA, coinB with
            | Some _, Some _ =>
                let poolSymbol :=
                  PairSymbol.pair (_pairSymbol (PathLink.base path) (PathLink.quote path)) in
                set_poolAddressMap
                  (<[poolSymbol := PathLink.addressMap path]> (poolAddressMap self)) self
            | _, _ => self
            end in
          loadGraph_paths rest self
      end
  end.

(** The outer [forEach] of [loadGraph], over the providers that remain. *)
Fixpoint loadGraph_providers (providers : list PathProvider.t) (self : t) : Try unit * t :=
  match providers with
  | [] => (Done tt, self)
  | provider :: rest =>
      match loadGraph_paths (PathProvider.paths provider) self with
      | (Done _, self) => loadGraph_providers rest self
      | (Raise e, self) => (Raise e, self)
      end
  end.

(** [loadGraph(coins, paths)]; the first component is [paths] as the caller
    finds it after the call. *)
Definition loadGraph (coins : CoinProvider.t) (paths : PathProvider.t) (self : t)
  : PathProvider.t * (Try unit * t) :=
  let self := addCoinProvider coins self in
  let '(paths, self) := addPathProvider paths self in
  let self := setCoinList self in
  (paths, loadGraph_providers (pathProviders self) self).

End Methods.

Arguments graph {Graph}.
Arguments pathProviders {Graph}.
Arguments coinProviders {Graph}.
Arguments _coinAddressMap {Graph}.
Arguments poolAddressMap {Graph}.
Arguments getPoolAddressMapAndDirection {Graph}.
Arguments setCoinList {Graph}.
Arguments addPathProvider {Graph}.
Arguments addCoinProvider {Graph}.
Arguments tokenInfo {Graph}.
Arguments loadGraph {Graph}.

End RouterModule.

(** The coin type that [addPathProvider] always puts on the quote side. *)
Definition sui_coin_type : string := "0x2::sui::SUI".

(** The path links of [paths] that register the pool symbol [key] when both
    their coins are known to [coinAddressMap]. *)
Definition registers (coinAddressMap : gmap string CoinNode.t) (key : string)
    (path : PathLink.t) : Prop :=
  PairSymbol.pair (_pairSymbol (PathLink.base path) (PathLink.quote path)) = key
  /\ is_Some (coinAddressMap !! PathLink.base path)
  /\ is_Some (coinAddressMap !! PathLink.quote path).

#[global] Instance registers_dec coinAddressMap key path :
  Decision (registers coinAddressMap key path).
Proof. unfold registers. apply _. Defined.

(** The value of a map at a key after the entries of [written], in order,
    have been set on it: the last of them, or what the map held. *)
Definition last_written {A B : Type} (value : A -> B) (before : option B) (written : list A)
  : option B :=
  match last written with
  | Some a => Some (value a)
  | None => before
  end.

(** ** Scenarios for the rest of the SDK *)

Module SdkScenario.

Definition U64_MAX : Z := 18446744073709551615.

(** The event of a simulated swap that takes [amount_in] and a fee of 1 and
    gives [amount_out]. *)
Definition swap_event (amount_in amount_out : Z) (is_exceed : bool) : SwapEvent.t :=
  SwapEvent.mk (Some (2 ^ 64))
    (SwapEventData.mk (Some amount_in) (Some amount_out) None (Some 1) (Some (2 ^ 64 + 1))
       None None None None is_exceed).

(** Three pools, the third of which cannot fill the swap; and two pools
    neither of which can. *)
Definition events : list SwapEvent.t :=
  [swap_event 100 90 false; swap_event 100 95 false; swap_event 100 99 true].

Definition exceeded_events : list SwapEvent.t :=
  [swap_event 100 90 true; swap_event 100 95 true].

Definition pools (poolAddresses : list string) (byAmountIn : bool)
  : PreSwapWithMultiPoolParams.t :=
  PreSwapWithMultiPoolParams.mk poolAddresses true byAmountIn "100" "0xa::a::A" "0xb::b::B".

(** What [preSwapWithMultiPool] makes of the event [item] of the pool
    [poolAddress]. *)
Definition answer (poolAddress : string) (byAmountIn : bool) (item : SwapEvent.t)
  : SwapWithMultiPoolData.t :=
  PreSwap.transformSwapWithMultiPoolData
    (TransPreSwapWithMultiPoolParams.mk (Some poolAddress) true byAmountIn "100"
       "0xa::a::A" "0xb::b::B")
    item.

(** A route of one step through the pool [poolAB]. *)
Definition route (poolAB : string) : PreRouterSwapParams.t :=
  PreRouterSwapParams.mk 1 poolAB None true None true 100 "0xa::a::A" "0xb::b::B" None.

(** A pool of three rewarders, and an account with two positions in it. *)
Definition pool : Pool.t :=
  Pool.mk "0xpool" "0xa::a::A" "0xb::b::B" (2 ^ 64) 0 2500 1 2
    [Rewarder.mk "0x2::sui::SUI" (2 ^ 64) 0;
     Rewarder.mk "0xcetus::cetus::CETUS" (2 ^ 65) 0;
     Rewarder.mk "0xusdc::usdc::USDC" 0 0]
    0 "0xticks".

Definition sdk : CetusClmmSDK.t := CetusClmmSDK.mk (fun _ => Returned pool).

Definition rewarder_module : RewarderModule.t := RewarderModule.constructor sdk.

Definition positions : list Position.t :=
  [Position.mk "0xpos0" (PositionReward.mk 1 (-10) 10 0 0 0 0 0 0);
   Position.mk "0xpos1" (PositionReward.mk 2 (-20) 20 5 0 1 0 0 0)].

Definition getPositionList (account : string) (poolObjectIds : list string)
  : Outcome (list Position.t) :=
  Returned positions.

Definition getTickDataByIndex (ticksHandle : string) (index : Z) : Outcome TickData.t :=
  Returned (Scenario.tick index).

(** The account of [Scenario.pool], which has one rewarder. *)
Definition getPositionList_one (account : string) (poolObjectIds : list string)
  : Outcome (list Position.t) :=
  Returned [Position.mk "0xpos0" Scenario.position].

(** A chain that reports, for the request at place [i], the amounts
    [7 + i] and [3] of the first two rewarders. *)
Definition devInspectPositionRewards (params : list FetchPosRewardParams.t)
  : Try (list (list Z)) :=
  Done (imap (fun i _ => [7 + Z.of_nat i; 3]) params).

Definition requests : list FetchPosRewardParams.t :=
  map (fun position =>
         FetchPosRewardParams.mk "0xpool" (Position.pos_object_id position)
           "0xa::a::A" "0xb::b::B" (Pool.rewarder_infos pool))
    positions.

(** A graph that records its edges and accepts every one, and the order of
    strings by their length. *)
Definition Graph : Type := list (string * string).

Definition addEdge (graph : Graph) (base quote : string) : Try Graph :=
  Done (graph ++ [(base, quote)]).

Definition localeCompare (a b : string) : Z :=
  Z.of_nat (String.length a) - Z.of_nat (String.length b).

Definition coins : CoinProvider.t :=
  CoinProvider.mk
    [CoinNode.mk "0x2::sui::SUI" 9;
     CoinNode.mk "0xusdc::usdc::USDC" 6;
     CoinNode.mk "0xcetus::cetus::CETUS" 9].

(** Three path links; the coin of the last one is not among [coins]. *)
Definition paths : PathProvider.t :=
  PathProvider.mk
    [PathLink.mk "0x2::sui::SUI" "0xusdc::usdc::USDC" {[2500 := "0xpool0"]};
     PathLink.mk "0xusdc::usdc::USDC" "0xcetus::cetus::CETUS" {[100 := "0xpool1"]};
     PathLink.mk "0xusdc::usdc::USDC" "0xweth::weth::WETH" {[100 := "0xpool2"]}].

Definition router : RouterModule.t Graph := RouterModule.constructor Graph [].

Definition loaded : PathProvider.t * (Try unit * RouterModule.t Graph) :=
  RouterModule.loadGraph addEdge localeCompare coins paths router.

End SdkScenario.

(** * Properties *)

(** ** Reward accrual: [posRewardersAmountInternal] *)

Section Accrual.

Import MathUtil RewarderModule.

Variable getRewardInTickRange :
  Pool.t -> TickData.t -> TickData.t -> Z -> Z -> list Z -> list Z.

Local Abbreviation posRewardersAmountInternal :=
  (RewarderModule.posRewardersAmountInternal getRewardInTickRange).
Local Abbreviation rewardersInside_of := (RewarderModule.rewardersInside_of getRewardInTickRange).

(** The method is its three blocks run in turn on the growth-inside values,
    as many of them as there are values, and the instance is handed back. *)
Lemma posRewardersAmountInternal_unfold self pool position tickLower tickUpper :
  posRewardersAmountInternal pool position tickLower tickUpper self =
  (owed_entries pool position (rewardersInside_of self pool position tickLower tickUpper)
     0 (length (rewardersInside_of self pool position tickLower tickUpper) `min` 3),
   self).
Proof.
  unfold RewarderModule.posRewardersAmountInternal, RewarderModule.rewardersInside_of,
    bind, gets, lift, ret.
  cbn beta iota.
  set (ri := getRewardInTickRange _ _ _ _ _ _).
  destruct ri as [|r0 [|r1 [|r2 rs]]];
    cbn [length Nat.ltb Nat.leb Nat.min]; rewrite ?Nat.min_0_r; cbn [owed_entries].
  all: unfold owed_entry, Outcome_bind; cbn [reward_growth_inside reward_amount_owed].
  all: fold growth_delta_threshold.
  all: repeat match goal with
       | |- context [checkMulShiftRight ?a ?b ?c ?d] =>
           destruct (checkMulShiftRight a b c d); cbn beta iota
       | |- context [field_at ?l ?i ?f] => destruct (field_at l i f); cbn beta iota
       end; reflexivity.
Qed.

Lemma owed_entries_length pool position ri n :
  forall i es, owed_entries pool position ri i n = Returned es -> length es = n.
Proof.
  induction n as [|n IH]; intros i es; cbn [owed_entries].
  - intros [= <-]. reflexivity.
  - destruct (owed_entry pool position ri i) as [e|]; cbn [Outcome_bind]; [|discriminate].
    destruct (owed_entries pool position ri (S i) n) as [es'|] eqn:E;
      cbn [Outcome_bind]; [|discriminate].
    intros [= <-]. cbn [length]. f_equal. eauto.
Qed.

Lemma owed_entries_lookup pool position ri n :
  forall i es k,
    owed_entries pool position ri i n = Returned es ->
    (k < n)%nat ->
    exists e, es !! k = Some e /\ owed_entry pool position ri (i + k) = Returned e.
Proof.
  induction n as [|n IH]; intros i es k; cbn [owed_entries]; [lia|].
  destruct (owed_entry pool position ri i) as [e|] eqn:Ei; cbn [Outcome_bind]; [|discriminate].
  destruct (owed_entries pool position ri (S i) n) as [es'|] eqn:E;
    cbn [Outcome_bind]; [|discriminate].
  intros [= <-] Hk. destruct k as [|k].
  - exists e. rewrite Nat.add_0_r. auto.
  - destruct (IH (S i) es' k E) as (e' & He' & Hent); [lia|].
    exists e'. split; [exact He'|]. now replace (i + S k)%nat with (S i + k)%nat by lia.
Qed.

(** An entry that is returned holds the recorded amount plus the floor of
    [liquidity * delta / 2^64], for the delta after the threshold test, and
    the coin of the pool's rewarder of that index. *)
Lemma owed_entry_returned pool position ri i e :
  owed_entry pool position ri i = Returned e ->
  let d := subUnderflowU128 (ri !!! i) (reward_growth_inside position i) in
  RewarderAmountOwed.amount_owed e =
    reward_amount_owed position i +
    (PositionReward.liquidity position * (if d >? growth_delta_threshold then 1 else d)) / 2 ^ 64
  /\ exists info, Pool.rewarder_infos pool !! i = Some info
                  /\ RewarderAmountOwed.coin_address e = Rewarder.coinAddress info.
Proof.
  unfold owed_entry, checkMulShiftRight, field_at, ONE.
  destruct (isOverflow _ _); cbn [Outcome_bind]; [discriminate|].
  destruct (Pool.rewarder_infos pool !! i) as [info|]; cbn [Outcome_bind]; [|discriminate].
  intros [= <-]. cbn. eauto.
Qed.

(** The entry of a rewarder of a call that returned. *)
Lemma posRewardersAmountInternal_entry self pool position tickLower tickUpper AmountOwed i :
  let ri := rewardersInside_of self pool position tickLower tickUpper in
  fst (posRewardersAmountInternal pool position tickLower tickUpper self) = Returned AmountOwed ->
  (i < length ri)%nat -> (i < 3)%nat ->
  exists entry, AmountOwed !! i = Some entry /\ owed_entry pool position ri i = Returned entry.
Proof.
  intros ri. rewrite posRewardersAmountInternal_unfold. cbn [fst]. fold ri. intros H Hi H3.
  apply (owed_entries_lookup _ _ _ _ 0%nat AmountOwed i H). lia.
Qed.

(** When the call returns: the shifted product must fit 128 bits and the
    pool must list a rewarder for every growth value that is used. *)
Lemma owed_entries_returns pool position ri n :
  forall i,
    (forall k, (i <= k < i + n)%nat ->
       is_Some (Pool.rewarder_infos pool !! k) /\
       let d := subUnderflowU128 (ri !!! k) (reward_growth_inside position k) in
       0 <= (PositionReward.liquidity position
             * (if d >? growth_delta_threshold then 1 else d)) / 2 ^ 64 < 2 ^ 128) ->
    exists es, owed_entries pool position ri i n = Returned es.
Proof.
  induction n as [|n IH]; intros i H; cbn [owed_entries]; [eauto|].
  destruct (H i) as [[info Hinfo] Hfit]; [lia|].
  unfold owed_entry at 1, checkMulShiftRight, field_at, isOverflow, ONE.
  cbn zeta in Hfit.
  replace (0 <=? _) with true by (symmetry; apply Z.leb_le; lia).
  replace (_ <? 2 ^ 128) with true by (symmetry; apply Z.ltb_lt; lia).
  rewrite Hinfo. cbn [andb negb Outcome_bind].
  destruct (IH (S i)) as [es ->]; [intros k Hk; apply H; lia|].
  cbn [Outcome_bind]. eauto.
Qed.

Lemma posRewardersAmountInternal_returns self pool position tickLower tickUpper :
  let ri := rewardersInside_of self pool position tickLower tickUpper in
  (forall k, (k < length ri `min` 3)%nat ->
     is_Some (Pool.rewarder_infos pool !! k) /\
     let d := subUnderflowU128 (ri !!! k) (reward_growth_inside position k) in
     0 <= (PositionReward.liquidity position
           * (if d >? growth_delta_threshold then 1 else d)) / 2 ^ 64 < 2 ^ 128) ->
  exists AmountOwed,
    posRewardersAmountInternal pool position tickLower tickUpper self
    = (Returned AmountOwed, self).
Proof.
  intros ri H. rewrite posRewardersAmountInternal_unfold. fold ri.
  destruct (owed_entries_returns pool position ri (length ri `min` 3) 0) as [es ->]; [|eauto].
  intros k Hk. apply H. lia.
Qed.

(** C1.  Whenever the accrual returns, the amount owed it reports for a
    rewarder [i] (0, 1 or 2) that has a growth-inside value is the position's
    recorded [reward_amount_owed_i] plus the floor of
    [liquidity * delta / 2^64], where [delta] is
    [subUnderflowU128 (newGrowthInside_i, reward_growth_inside_i)], replaced
    by 1 when it is above the threshold. *)
Theorem posRewardersAmountInternal_owed_amount
    self pool position tickLower tickUpper AmountOwed (i : nat) :
  let rewardersInside := rewardersInside_of self pool position tickLower tickUpper in
  fst (posRewardersAmountInternal pool position tickLower tickUpper self) = Returned AmountOwed ->
  (i < length rewardersInside)%nat ->
  (i < 3)%nat ->
  exists entry newGrowthInside,
    AmountOwed !! i = Some entry /\
    rewardersInside !! i = Some newGrowthInside /\
    let delta := subUnderflowU128 newGrowthInside (reward_growth_inside position i) in
    let clamped := if delta >? growth_delta_threshold then 1 else delta in
    RewarderAmountOwed.amount_owed entry =
      reward_amount_owed position i + (PositionReward.liquidity position * clamped) / 2 ^ 64.
Proof.
  intros ri H Hi H3.
  destruct (posRewardersAmountInternal_entry _ _ _ _ _ _ i H Hi H3) as (entry & Hl & He).
  destruct (lookup_lt_is_Some_2 ri i Hi) as [g Hg].
  exists entry, g. repeat split; [exact Hl|exact Hg|].
  apply owed_entry_returned in He as [He _]. cbn zeta in He |- *.
  fold ri in He. now rewrite (list_lookup_total_correct ri i g Hg) in He.
Qed.

(** C2.  In a call that returns, the delta that enters the amount of a
    rewarder is 1 when the wrapped delta [d] is above the threshold, and [d]
    itself, unchanged, in every other case. *)
Theorem posRewardersAmountInternal_delta_clamp
    self pool position tickLower tickUpper AmountOwed (i : nat) :
  let rewardersInside := rewardersInside_of self pool position tickLower tickUpper in
  let d := subUnderflowU128 (rewardersInside !!! i) (reward_growth_inside position i) in
  fst (posRewardersAmountInternal pool position tickLower tickUpper self) = Returned AmountOwed ->
  (i < length rewardersInside)%nat ->
  (i < 3)%nat ->
  exists entry used,
    AmountOwed !! i = Some entry /\
    checkMulShiftRight (PositionReward.liquidity position) used 64 128
      = Returned (RewarderAmountOwed.amount_owed entry - reward_amount_owed position i) /\
    (d > growth_delta_threshold -> used = 1) /\
    (d <= growth_delta_threshold -> used = d).
Proof.
  intros ri d H Hi H3.
  destruct (posRewardersAmountInternal_entry _ _ _ _ _ _ i H Hi H3) as (entry & Hl & He).
  fold ri in He.
  exists entry, (if d >? growth_delta_threshold then 1 else d).
  split; [exact Hl|]. split.
  - revert He. unfold owed_entry. fold d. unfold ONE.
    destruct (checkMulShiftRight _ _ 64 128) as [v|]; cbn [Outcome_bind]; [|discriminate].
    destruct (field_at _ _ _); cbn [Outcome_bind]; [|discriminate].
    intros [= <-]. cbn. f_equal. lia.
  - destruct (Z.gtb_spec d growth_delta_threshold); split; intros; lia || reflexivity.
Qed.

(** C9.  A call that returns gives one entry per rewarder index that has a
    growth-inside value, in the order of the indices and for the indices 0, 1
    and 2 only: the number of entries is the number of values or 3, whichever
    is less, and the entry at place [i] carries the coin of the pool's
    rewarder [i]. *)
Theorem posRewardersAmountInternal_entries
    self pool position tickLower tickUpper AmountOwed :
  let rewardersInside := rewardersInside_of self pool position tickLower tickUpper in
  fst (posRewardersAmountInternal pool position tickLower tickUpper self) = Returned AmountOwed ->
  length AmountOwed = (length rewardersInside `min` 3)%nat /\
  (length AmountOwed <= 3)%nat /\
  (forall i, (i < length rewardersInside)%nat -> (i < 3)%nat ->
     exists entry info,
       AmountOwed !! i = Some entry /\
       Pool.rewarder_infos pool !! i = Some info /\
       RewarderAmountOwed.coin_address entry = Rewarder.coinAddress info) /\
  (forall i, (length rewardersInside <= i)%nat \/ (3 <= i)%nat -> AmountOwed !! i = None).
Proof.
  intros ri H.
  assert (Hlen : length AmountOwed = (length ri `min` 3)%nat).
  { rewrite posRewardersAmountInternal_unfold in H. cbn [fst] in H. fold ri in H.
    exact (owed_entries_length _ _ _ _ _ _ H). }
  repeat split.
  - exact Hlen.
  - lia.
  - intros i Hi H3.
    destruct (posRewardersAmountInternal_entry _ _ _ _ _ _ i H Hi H3) as (entry & Hl & He).
    apply owed_entry_returned in He as [_ (info & Hinfo & Hc)]. eauto.
  - intros i Hi. apply lookup_ge_None_2. lia.
Qed.

(** C3, as the code has it.  The accrual reads the instance's [growthGlobal]
    and nothing else of the instance, and writes none of its fields: two
    instances that agree on [growthGlobal] give the same outcome for the same
    [pool], [position], [tickLower] and [tickUpper], and each instance is
    after the call what it was before. *)
Theorem posRewardersAmountInternal_reads_growthGlobal
    self1 self2 pool position tickLower tickUpper :
  growthGlobal self1 = growthGlobal self2 ->
  fst (posRewardersAmountInternal pool position tickLower tickUpper self1)
  = fst (posRewardersAmountInternal pool position tickLower tickUpper self2)
  /\ snd (posRewardersAmountInternal pool position tickLower tickUpper self1) = self1
  /\ snd (posRewardersAmountInternal pool position tickLower tickUpper self2) = self2.
Proof.
  intros Hg. rewrite !posRewardersAmountInternal_unfold. cbn [fst snd].
  unfold RewarderModule.rewardersInside_of. now rewrite Hg.
Qed.

End Accrual.

(** ** The cached growth: [updatePoolRewarder] *)

Section PoolRewarder.

Import MathUtil RewarderModule.

(** With a divisor that is not zero, [checkMulDivFloor] divides. *)
Lemma checkMulDivFloor_nonzero n0 n1 denom limit :
  denom <> 0 -> checkMulDivFloor n0 n1 denom limit <> Thrown DivisionByZero.
Proof.
  intros Hd. unfold checkMulDivFloor.
  destruct (Z.eqb_spec denom 0) as [|_]; [contradiction|].
  cbn zeta. destruct (isOverflow _ _); discriminate.
Qed.

Lemma checkMulDivFloor_zero n0 n1 limit :
  checkMulDivFloor n0 n1 0 limit = Thrown DivisionByZero.
Proof. reflexivity. Qed.

(** The loop divides by the liquidity of the pool it is given. *)
Lemma updatePoolRewarder_loop_divides currentPool timeDelta rest :
  Pool.liquidity currentPool <> 0 ->
  forall i self,
    fst (updatePoolRewarder_loop currentPool timeDelta rest i self) <> Thrown DivisionByZero.
Proof.
  intros Hliq. induction rest as [|rewarderInfo rest IH]; intros i self.
  - discriminate.
  - cbn [updatePoolRewarder_loop]. unfold bind, lift, modify.
    pose proof (checkMulDivFloor_nonzero timeDelta
                  (Rewarder.emissions_per_second rewarderInfo)
                  (Pool.liquidity currentPool) 128 Hliq) as Hdiv.
    destruct (checkMulDivFloor _ _ _ _) as [v|e]; cbn [fst].
    + apply IH.
    + congruence.
Qed.

(** C10.  For the pool that [getPool] delivers: the call never fails with a
    division by zero, and when the pool's liquidity is 0 or the current time
    is the time of the last update it returns the pool (stamped with the
    current time) and leaves the instance, the cached growth array with it,
    untouched; so the instance changes only under a liquidity that is not
    zero and a time that differs. *)
Theorem updatePoolRewarder_division_guarded self poolObjectId currentTime pool :
  CetusClmmSDK.getPool (_sdk self) poolObjectId = Returned pool ->
  fst (updatePoolRewarder poolObjectId currentTime self) <> Thrown DivisionByZero
  /\ (Pool.liquidity pool = 0 \/ currentTime = Pool.rewarder_last_updated_time pool ->
      updatePoolRewarder poolObjectId currentTime self
      = (Returned (Pool.set_rewarder_last_updated_time currentTime pool), self))
  /\ (growthGlobal (snd (updatePoolRewarder poolObjectId currentTime self)) <> growthGlobal self ->
      Pool.liquidity pool <> 0 /\ currentTime <> Pool.rewarder_last_updated_time pool).
Proof.
  intros Hpool.
  assert (Hskip : Pool.liquidity pool = 0 \/ currentTime = Pool.rewarder_last_updated_time pool ->
                  updatePoolRewarder poolObjectId currentTime self
                  = (Returned (Pool.set_rewarder_last_updated_time currentTime pool), self)).
  { intros Hcase. unfold updatePoolRewarder, bind, gets, lift, ret. rewrite Hpool.
    cbn [Pool.liquidity Pool.set_rewarder_last_updated_time].
    replace ((Pool.liquidity pool =? 0) || (currentTime =? Pool.rewarder_last_updated_time pool))
      with true; [reflexivity|].
    symmetry. apply orb_true_iff. destruct Hcase as [H|H]; [left|right]; now apply Z.eqb_eq. }
  split; [|split; [exact Hskip|]].
  - unfold updatePoolRewarder, bind, gets, lift, ret. rewrite Hpool.
    cbn [Pool.liquidity Pool.set_rewarder_last_updated_time].
    destruct (Z.eqb_spec (Pool.liquidity pool) 0) as [|Hliq]; cbn [orb]; [discriminate|].
    destruct (currentTime =? _); [discriminate|].
    pose proof (updatePoolRewarder_loop_divides
                  (Pool.set_rewarder_last_updated_time currentTime pool)
                  (currentTime ÷ 1000 - Pool.rewarder_last_updated_time pool + 15)
                  (Pool.rewarder_infos pool) Hliq 0%nat self) as Hloop.
    cbn [Pool.rewarder_infos Pool.set_rewarder_last_updated_time] in *.
    destruct (updatePoolRewarder_loop _ _ _ _ _) as [[[]|e] self']; cbn [fst] in *;
      [discriminate|congruence].
  - intros Hchg.
    destruct (Z.eq_dec (Pool.liquidity pool) 0) as [H0|H0];
      [rewrite Hskip in Hchg by auto; now cbn in Hchg|].
    destruct (Z.eq_dec currentTime (Pool.rewarder_last_updated_time pool)) as [Ht|Ht];
      [rewrite Hskip in Hchg by auto; now cbn in Hchg|].
    auto.
Qed.

End PoolRewarder.

(** ** The sort of [calculateRates] *)

Section Sort.

Context {A : Type} (compareFn : A -> A -> Z).

Local Abbreviation R := (keeps_before compareFn).

Lemma Array_sort_insert_Permutation x l : Array_sort_insert compareFn x l ≡ₚ x :: l.
Proof.
  induction l as [|y l IH]; cbn [Array_sort_insert]; [reflexivity|].
  destruct (compareFn x y <=? 0); [reflexivity|].
  rewrite IH. apply Permutation_swap.
Qed.

Lemma Array_sort_Permutation l : Array_sort compareFn l ≡ₚ l.
Proof.
  induction l as [|x l IH]; cbn [Array_sort]; [reflexivity|].
  rewrite Array_sort_insert_Permutation. now rewrite IH.
Qed.

(** A list that is in order already is left as it is. *)
Lemma Array_sort_of_Sorted l : Sorted R l -> Array_sort compareFn l = l.
Proof.
  induction 1 as [|x l Hs IH Hhd]; cbn [Array_sort]; [reflexivity|].
  rewrite IH. destruct Hhd as [|y l Hxy]; cbn [Array_sort_insert]; [reflexivity|].
  unfold keeps_before in Hxy. now apply Z.leb_le in Hxy as ->.
Qed.

(** The comparator orders any two elements one way or the other. *)
Hypothesis compareFn_total : forall a b, compareFn a b <= 0 \/ compareFn b a <= 0.

Lemma Array_sort_insert_HdRel a x l :
  R a x -> HdRel R a l -> HdRel R a (Array_sort_insert compareFn x l).
Proof.
  intros Hax [|y l' Hay]; cbn [Array_sort_insert]; [now constructor|].
  destruct (compareFn x y <=? 0); now constructor.
Qed.

Lemma Array_sort_insert_Sorted x l :
  Sorted R l -> Sorted R (Array_sort_insert compareFn x l).
Proof.
  induction 1 as [|y l Hs IH Hhd]; cbn [Array_sort_insert].
  - repeat constructor.
  - destruct (Z.leb_spec (compareFn x y) 0) as [Hxy|Hxy].
    + constructor; [now constructor|now constructor].
    + constructor; [exact IH|].
      apply Array_sort_insert_HdRel; [|exact Hhd].
      unfold keeps_before. destruct (compareFn_total x y); lia.
Qed.

Lemma Array_sort_Sorted l : Sorted R (Array_sort compareFn l).
Proof.
  induction l as [|x l IH]; cbn [Array_sort]; [constructor|].
  now apply Array_sort_insert_Sorted.
Qed.

Lemma Array_sort_fixed_iff l : Array_sort compareFn l = l <-> Sorted R l.
Proof.
  split; [intros <-; apply Array_sort_Sorted|apply Array_sort_of_Sorted].
Qed.

End Sort.

Lemma tick_compareFn_total a2b a b :
  tick_compareFn a2b a b <= 0 \/ tick_compareFn a2b b a <= 0.
Proof. unfold tick_compareFn. destruct a2b; lia. Qed.

Lemma tick_before_keeps_before a2b l :
  Sorted (tick_before a2b) l <-> Sorted (keeps_before (tick_compareFn a2b)) l.
Proof.
  assert (E : forall a b, tick_before a2b a b <-> keeps_before (tick_compareFn a2b) a b).
  { intros a b. unfold tick_before, keeps_before, tick_compareFn. destruct a2b; lia. }
  split; induction 1 as [|x l Hs IH Hhd]; constructor; auto;
    destruct Hhd; constructor; now apply E.
Qed.

(** ** Swap preview: [calculateRates] *)

Section Rates.

Variable computeSwap :
  bool -> bool -> Z -> ClmmpoolData.t -> list TickData.t -> Outcome SwapResult.t.
Variables MIN_SQRT_PRICE MAX_SQRT_PRICE : Z.
Variable sqrtPriceX64ToPrice : Z -> Z -> Z -> float.

Local Abbreviation calculateRates :=
  (SwapModule.calculateRates computeSwap MIN_SQRT_PRICE MAX_SQRT_PRICE sqrtPriceX64ToPrice).

(** The call of [computeSwap] that [calculateRates] makes. *)
Local Abbreviation simulated params :=
  (computeSwap (CalculateRatesParams.a2b params) (CalculateRatesParams.byAmountIn params)
     (CalculateRatesParams.amount params)
     (transClmmpoolDataWithoutTicks (CalculateRatesParams.currentPool params))
     (Array_sort (tick_compareFn (CalculateRatesParams.a2b params))
        (CalculateRatesParams.swapTicks params))).

(** The array the caller passed is, after the call, the sorted one; the
    other fields of [params] are as they were. *)
Lemma calculateRates_params params :
  fst (calculateRates params) =
  CalculateRatesParams.set_swapTicks
    (Array_sort (tick_compareFn (CalculateRatesParams.a2b params))
       (CalculateRatesParams.swapTicks params))
    params.
Proof.
  unfold SwapModule.calculateRates, tick_compareFn. cbn [fst].
  now destruct (CalculateRatesParams.a2b params).
Qed.

(** The result, in terms of what [computeSwap] answers on the sorted ticks. *)
Lemma calculateRates_outcome params :
  snd (calculateRates params) =
  match simulated params with
  | Thrown e => Thrown e
  | Returned swapResult =>
      Returned
        (CalculateRatesResult.mk
           (SwapResult.amountIn swapResult)
           (SwapResult.amountOut swapResult)
           (SwapResult.nextSqrtPrice swapResult)
           (SwapResult.feeAmount swapResult)
           ((if CalculateRatesParams.byAmountIn params
             then SwapResult.amountIn swapResult <? CalculateRatesParams.amount params
             else SwapResult.amountOut swapResult <? CalculateRatesParams.amount params)
            || (CalculateRatesParams.a2b params
                && (SwapResult.nextSqrtPrice swapResult <? MIN_SQRT_PRICE))
            || (negb (CalculateRatesParams.a2b params)
                && (SwapResult.nextSqrtPrice swapResult >? MAX_SQRT_PRICE))
            || (SwapResult.crossTickNum swapResult >? 40))
           (if (SwapResult.crossTickNum swapResult >? 6)
               && (SwapResult.crossTickNum swapResult <? 40)
            then 22000 * (SwapResult.crossTickNum swapResult - 6) else 0)
           (CalculateRatesParams.amount params)
           (CalculateRatesParams.a2b params)
           (CalculateRatesParams.byAmountIn params)
           (abs (sqrtPriceX64ToPrice
                   (Pool.current_sqrt_price (CalculateRatesParams.currentPool params))
                   (CalculateRatesParams.decimalsA params)
                   (CalculateRatesParams.decimalsB params)
                 - sqrtPriceX64ToPrice (SwapResult.nextSqrtPrice swapResult)
                     (CalculateRatesParams.decimalsA params)
                     (CalculateRatesParams.decimalsB params))
            / sqrtPriceX64ToPrice
                (Pool.current_sqrt_price (CalculateRatesParams.currentPool params))
                (CalculateRatesParams.decimalsA params)
                (CalculateRatesParams.decimalsB params)
            * 100)%float)
  end.
Proof.
  destruct params as [decimalsA decimalsB a2b byAmountIn amount swapTicks currentPool].
  unfold SwapModule.calculateRates, SwapModule.getDefaultSqrtPriceLimit, tick_compareFn,
    CalculateRatesParams.set_swapTicks, transClmmpoolDataWithoutTicks, Outcome_bind.
  cbv beta iota zeta
    delta [snd CalculateRatesParams.a2b CalculateRatesParams.byAmountIn
           CalculateRatesParams.amount CalculateRatesParams.swapTicks
           CalculateRatesParams.currentPool CalculateRatesParams.decimalsA
           CalculateRatesParams.decimalsB ClmmpoolData.currentSqrtPrice].
  destruct a2b; cbv beta iota;
    (destruct (computeSwap _ _ _ _ _) as [swapResult|e]; [|reflexivity]);
    f_equal; f_equal;
    destruct byAmountIn;
    repeat match goal with |- context [?a <? ?b] => destruct (a <? b) end;
    repeat match goal with |- context [?a >? ?b] => destruct (a >? b) end;
    reflexivity.
Qed.

(** [calculateRates] throws what [computeSwap] throws on the sorted ticks,
    and nothing else. *)
Lemma calculateRates_thrown params e :
  snd (calculateRates params) = Thrown e <-> simulated params = Thrown e.
Proof.
  rewrite calculateRates_outcome.
  destruct (computeSwap _ _ _ _ _); split; congruence.
Qed.

(** When [computeSwap] returns, so does [calculateRates]. *)
Lemma calculateRates_returned params swapResult :
  simulated params = Returned swapResult ->
  exists result,
    snd (calculateRates params) = Returned result
    /\ CalculateRatesResult.estimatedAmountIn result = SwapResult.amountIn swapResult
    /\ CalculateRatesResult.estimatedAmountOut result = SwapResult.amountOut swapResult
    /\ CalculateRatesResult.amount result = CalculateRatesParams.amount params
    /\ CalculateRatesResult.isExceed result =
         (if CalculateRatesParams.byAmountIn params
          then SwapResult.amountIn swapResult <? CalculateRatesParams.amount params
          else SwapResult.amountOut swapResult <? CalculateRatesParams.amount params)
         || (CalculateRatesParams.a2b params
             && (SwapResult.nextSqrtPrice swapResult <? MIN_SQRT_PRICE))
         || (negb (CalculateRatesParams.a2b params)
             && (SwapResult.nextSqrtPrice swapResult >? MAX_SQRT_PRICE))
         || (SwapResult.crossTickNum swapResult >? 40).
Proof.
  intros H. rewrite calculateRates_outcome, H. eexists. split; [reflexivity|].
  cbn. auto.
Qed.

(** Sorting twice is sorting once. *)
Lemma Array_sort_ticks_idempotent a2b ticks :
  Array_sort (tick_compareFn a2b) (Array_sort (tick_compareFn a2b) ticks)
  = Array_sort (tick_compareFn a2b) ticks.
Proof.
  apply Array_sort_of_Sorted, Array_sort_Sorted, tick_compareFn_total.
Qed.

(** C4, as the code has it.  [calculateRates] rejects no tick sequence for
    its order: it sorts the array it is given (indices descending for A to
    B, ascending for B to A), hands the sorted sequence to [computeSwap] and
    answers as it would have for the sorted sequence; what it throws,
    [computeSwap] threw on the sorted sequence.  It does not look for
    duplicate indices. *)
Theorem calculateRates_sorts_ticks params :
  let ticks := CalculateRatesParams.swapTicks (fst (calculateRates params)) in
  ticks ≡ₚ CalculateRatesParams.swapTicks params
  /\ Sorted (tick_before (CalculateRatesParams.a2b params)) ticks
  /\ snd (calculateRates params)
     = snd (calculateRates (CalculateRatesParams.set_swapTicks ticks params))
  /\ (forall e,
        snd (calculateRates params) = Thrown e ->
        computeSwap (CalculateRatesParams.a2b params) (CalculateRatesParams.byAmountIn params)
          (CalculateRatesParams.amount params)
          (transClmmpoolDataWithoutTicks (CalculateRatesParams.currentPool params))
          ticks
        = Thrown e).
Proof.
  cbv zeta. rewrite calculateRates_params.
  destruct params as [decimalsA decimalsB a2b byAmountIn amount swapTicks currentPool].
  cbn [CalculateRatesParams.set_swapTicks CalculateRatesParams.swapTicks
       CalculateRatesParams.a2b CalculateRatesParams.byAmountIn
       CalculateRatesParams.amount CalculateRatesParams.currentPool].
  split; [apply Array_sort_Permutation|].
  split; [apply tick_before_keeps_before, Array_sort_Sorted, tick_compareFn_total|].
  split.
  - rewrite !calculateRates_outcome.
    cbn [CalculateRatesParams.set_swapTicks CalculateRatesParams.swapTicks
         CalculateRatesParams.a2b CalculateRatesParams.byAmountIn
         CalculateRatesParams.amount CalculateRatesParams.currentPool
         CalculateRatesParams.decimalsA CalculateRatesParams.decimalsB].
    now rewrite Array_sort_ticks_idempotent.
  - intros e He. now apply calculateRates_thrown in He.
Qed.

(** C5, as the code has it.  When the simulation crossed more than 40 ticks,
    [calculateRates] returns a result, and the result has [isExceed] set: the
    limit is reported in a field, nothing is thrown for it. *)
Theorem calculateRates_cross_tick_limit params swapResult :
  computeSwap (CalculateRatesParams.a2b params) (CalculateRatesParams.byAmountIn params)
    (CalculateRatesParams.amount params)
    (transClmmpoolDataWithoutTicks (CalculateRatesParams.currentPool params))
    (CalculateRatesParams.swapTicks (fst (calculateRates params)))
  = Returned swapResult ->
  SwapResult.crossTickNum swapResult > 40 ->
  exists result,
    snd (calculateRates params) = Returned result
    /\ CalculateRatesResult.isExceed result = true.
Proof.
  rewrite calculateRates_params. cbn [CalculateRatesParams.set_swapTicks
                                      CalculateRatesParams.swapTicks].
  intros H Hn.
  destruct (calculateRates_returned params swapResult H) as (result & Hr & _ & _ & _ & Hx).
  exists result. split; [exact Hr|]. rewrite Hx.
  replace (SwapResult.crossTickNum swapResult >? 40) with true
    by (symmetry; apply Z.gtb_gt; lia).
  apply orb_true_r.
Qed.

(** C6.  In a result of an exact-input call, an amount in that is below the
    amount requested comes with [isExceed] set. *)
Theorem calculateRates_partial_fill params result :
  snd (calculateRates params) = Returned result ->
  CalculateRatesParams.byAmountIn params = true ->
  CalculateRatesResult.estimatedAmountIn result < CalculateRatesParams.amount params ->
  CalculateRatesResult.isExceed result = true.
Proof.
  rewrite calculateRates_outcome. intros H Hby.
  destruct (computeSwap _ _ _ _ _) as [swapResult|]; [|discriminate].
  injection H as <-.
  cbn [CalculateRatesResult.estimatedAmountIn CalculateRatesResult.isExceed].
  rewrite Hby. intros Hlt. apply Z.ltb_lt in Hlt. now rewrite Hlt.
Qed.

(** [calculateRates] has no check of the amount of its own: it hands
    [params.amount], whatever it is, to [computeSwap] together with the
    sorted ticks, throws exactly when [computeSwap] throws, and the same
    exception, and returns a result for that amount whenever [computeSwap]
    returns. *)
Lemma calculateRates_forwards_amount params :
  let simulation :=
    computeSwap (CalculateRatesParams.a2b params) (CalculateRatesParams.byAmountIn params)
      (CalculateRatesParams.amount params)
      (transClmmpoolDataWithoutTicks (CalculateRatesParams.currentPool params))
      (CalculateRatesParams.swapTicks (fst (calculateRates params))) in
  (forall e, snd (calculateRates params) = Thrown e <-> simulation = Thrown e)
  /\ (forall swapResult,
        simulation = Returned swapResult ->
        exists result,
          snd (calculateRates params) = Returned result
          /\ CalculateRatesResult.amount result = CalculateRatesParams.amount params
          /\ CalculateRatesResult.estimatedAmountIn result = SwapResult.amountIn swapResult
          /\ CalculateRatesResult.estimatedAmountOut result = SwapResult.amountOut swapResult).
Proof.
  cbv zeta. rewrite calculateRates_params. cbn [CalculateRatesParams.set_swapTicks
                                                 CalculateRatesParams.swapTicks].
  split; [intros e; apply calculateRates_thrown|].
  intros swapResult H.
  destruct (calculateRates_returned params swapResult H) as (result & Hr & Hi & Ho & Ha & _).
  eauto 6.
Qed.

(** C8, as the code has it.  After the call the caller's pool is what it
    was, and [params] differs from what it was in its [swapTicks] at most;
    the caller's [swapTicks] array holds the same ticks sorted for the
    direction, and is what it was exactly when it was in that order before. *)
Theorem calculateRates_inputs_after params :
  let after := fst (calculateRates params) in
  CalculateRatesParams.currentPool after = CalculateRatesParams.currentPool params
  /\ CalculateRatesParams.set_swapTicks (CalculateRatesParams.swapTicks params) after = params
  /\ CalculateRatesParams.swapTicks after
     = Array_sort (tick_compareFn (CalculateRatesParams.a2b params))
         (CalculateRatesParams.swapTicks params)
  /\ CalculateRatesParams.swapTicks after ≡ₚ CalculateRatesParams.swapTicks params
  /\ Sorted (tick_before (CalculateRatesParams.a2b params)) (CalculateRatesParams.swapTicks after)
  /\ (after = params
      <-> Sorted (tick_before (CalculateRatesParams.a2b params))
            (CalculateRatesParams.swapTicks params)).
Proof.
  cbv zeta. rewrite calculateRates_params.
  destruct params as [decimalsA decimalsB a2b byAmountIn amount swapTicks currentPool].
  cbn [CalculateRatesParams.set_swapTicks CalculateRatesParams.swapTicks
       CalculateRatesParams.a2b CalculateRatesParams.byAmountIn
       CalculateRatesParams.amount CalculateRatesParams.currentPool
       CalculateRatesParams.decimalsA CalculateRatesParams.decimalsB].
  unfold CalculateRatesParams.set_swapTicks.
  cbn [CalculateRatesParams.swapTicks CalculateRatesParams.a2b
       CalculateRatesParams.byAmountIn CalculateRatesParams.amount
       CalculateRatesParams.currentPool CalculateRatesParams.decimalsA
       CalculateRatesParams.decimalsB].
  repeat split.
  - apply Array_sort_Permutation.
  - apply tick_before_keeps_before, Array_sort_Sorted, tick_compareFn_total.
  - intros [= H]. apply tick_before_keeps_before.
    now apply Array_sort_fixed_iff; [apply tick_compareFn_total|].
  - intros H. f_equal. apply Array_sort_of_Sorted. now apply tick_before_keeps_before.
Qed.

End Rates.

(** ** An amount that is not positive *)

Section AmountCheck.

Variable swapLoop :
  bool -> bool -> Z -> ClmmpoolData.t -> list TickData.t -> Outcome SwapResult.t.
Variables MIN_SQRT_PRICE MAX_SQRT_PRICE : Z.
Variable sqrtPriceX64ToPrice : Z -> Z -> Z -> float.

(** C7.  With the simulator of the specification, which rejects an amount
    that is not positive before it enters its loop, every call of
    [calculateRates] with such an amount ends in [InvalidAmount], whatever
    the loop would have computed: [calculateRates] hands the amount over as
    it is, makes the one call of the simulator, and lets the exception
    through without computing a result. *)
Theorem calculateRates_rejects_nonpositive_amount params :
  CalculateRatesParams.amount params <= 0 ->
  snd (SwapModule.calculateRates (Clmm.computeSwap swapLoop)
         MIN_SQRT_PRICE MAX_SQRT_PRICE sqrtPriceX64ToPrice params)
  = Thrown InvalidAmount.
Proof.
  intros Hamount. apply calculateRates_thrown.
  unfold Clmm.computeSwap. now rewrite (proj2 (Z.leb_le _ _) Hamount).
Qed.

End AmountCheck.

(** ** The statements at concrete inputs *)

Section Examples.

Import Scenario.

Local Abbreviation SUI := "0x2::sui::SUI"%string.

Example updated_module_growth :
  RewarderModule.growthGlobal updated_module = [17 * 2 ^ 64; 0; 0].
Proof. vm_compute. reflexivity. Qed.

Example accrue_fresh :
  accrue position fresh_module = (Returned [RewarderAmountOwed.mk 0 SUI], fresh_module).
Proof. vm_compute. reflexivity. Qed.

Example accrue_updated :
  accrue position updated_module = (Returned [RewarderAmountOwed.mk 17 SUI], updated_module).
Proof. vm_compute. reflexivity. Qed.

Example accrue_stale :
  accrue stale_position fresh_module = (Returned [RewarderAmountOwed.mk 8 SUI], fresh_module).
Proof. vm_compute. reflexivity. Qed.

(** The wrapped delta of the stale position is [2^128 - 1]: of the order of
    [2^128], far above the threshold, which is of the order of [2^111]. *)
Example stale_delta :
  MathUtil.subUnderflowU128 0 1 = 2 ^ 128 - 1
  /\ 2 ^ 111 < growth_delta_threshold < 2 ^ 112.
Proof. vm_compute. repeat split; reflexivity. Qed.

(** Section 8 of the specification. *)
Example wrap_correctness : MathUtil.subUnderflowU128 5 10 = 2 ^ 128 - 5.
Proof. reflexivity. Qed.

Lemma posRewardersAmountInternal_owed_amount_witness :
  let rewardersInside :=
    RewarderModule.rewardersInside_of TickUtil.getRewardInTickRange updated_module
      pool position (tick (-10)) (tick 10) in
  exists entry newGrowthInside,
    [RewarderAmountOwed.mk 17 SUI] !! 0%nat = Some entry /\
    rewardersInside !! 0%nat = Some newGrowthInside /\
    let delta := MathUtil.subUnderflowU128 newGrowthInside (reward_growth_inside position 0) in
    let clamped := if delta >? growth_delta_threshold then 1 else delta in
    RewarderAmountOwed.amount_owed entry =
      reward_amount_owed position 0 + (PositionReward.liquidity position * clamped) / 2 ^ 64.
Proof.
  apply (posRewardersAmountInternal_owed_amount TickUtil.getRewardInTickRange
           updated_module pool position (tick (-10)) (tick 10)
           [RewarderAmountOwed.mk 17 SUI] 0).
  - vm_compute. reflexivity.
  - vm_compute. lia.
  - lia.
Defined.

Lemma posRewardersAmountInternal_delta_clamp_witness :
  let rewardersInside :=
    RewarderModule.rewardersInside_of TickUtil.getRewardInTickRange fresh_module
      pool stale_position (tick (-10)) (tick 10) in
  let d :=
    MathUtil.subUnderflowU128 (rewardersInside !!! 0%nat)
      (reward_growth_inside stale_position 0) in
  exists entry used,
    [RewarderAmountOwed.mk 8 SUI] !! 0%nat = Some entry /\
    MathUtil.checkMulShiftRight (PositionReward.liquidity stale_position) used 64 128
      = Returned (RewarderAmountOwed.amount_owed entry - reward_amount_owed stale_position 0) /\
    (d > growth_delta_threshold -> used = 1) /\
    (d <= growth_delta_threshold -> used = d).
Proof.
  apply (posRewardersAmountInternal_delta_clamp TickUtil.getRewardInTickRange
           fresh_module pool stale_position (tick (-10)) (tick 10)
           [RewarderAmountOwed.mk 8 SUI] 0).
  - vm_compute. reflexivity.
  - vm_compute. lia.
  - lia.
Defined.

Lemma posRewardersAmountInternal_entries_witness :
  let rewardersInside :=
    RewarderModule.rewardersInside_of TickUtil.getRewardInTickRange updated_module
      pool position (tick (-10)) (tick 10) in
  let AmountOwed := [RewarderAmountOwed.mk 17 SUI] in
  length AmountOwed = (length rewardersInside `min` 3)%nat /\
  (length AmountOwed <= 3)%nat /\
  (forall i, (i < length rewardersInside)%nat -> (i < 3)%nat ->
     exists entry info,
       AmountOwed !! i = Some entry /\
       Pool.rewarder_infos pool !! i = Some info /\
       RewarderAmountOwed.coin_address entry = Rewarder.coinAddress info) /\
  (forall i, (length rewardersInside <= i)%nat \/ (3 <= i)%nat -> AmountOwed !! i = None).
Proof.
  apply (posRewardersAmountInternal_entries TickUtil.getRewardInTickRange
           updated_module pool position (tick (-10)) (tick 10)
           [RewarderAmountOwed.mk 17 SUI]).
  vm_compute. reflexivity.
Defined.

(** Two instances built on different SDKs that hold the same growth. *)
Lemma posRewardersAmountInternal_reads_growthGlobal_witness :
  let other := RewarderModule.mk (CetusClmmSDK.mk (fun _ => Thrown FetchFailed))
                 (RewarderModule.growthGlobal updated_module) in
  fst (accrue position updated_module) = fst (accrue position other)
  /\ snd (accrue position updated_module) = updated_module
  /\ snd (accrue position other) = other.
Proof.
  apply (posRewardersAmountInternal_reads_growthGlobal TickUtil.getRewardInTickRange
           updated_module
           (RewarderModule.mk (CetusClmmSDK.mk (fun _ => Thrown FetchFailed))
              (RewarderModule.growthGlobal updated_module))
           pool position (tick (-10)) (tick 10)).
  reflexivity.
Defined.

(** C3, the claim as stated, fails: the same [pool], [position], [tickLower]
    and [tickUpper] give 0 owed on the instance as constructed and 17 owed
    after [updatePoolRewarder] has run on it in between. *)
Lemma posRewardersAmountInternal_depends_on_cache :
  fst (accrue position fresh_module) = Returned [RewarderAmountOwed.mk 0 SUI]
  /\ fst (accrue position updated_module) = Returned [RewarderAmountOwed.mk 17 SUI]
  /\ fst (accrue position fresh_module) <> fst (accrue position updated_module).
Proof.
  rewrite accrue_fresh, accrue_updated. cbn [fst]. repeat split. discriminate.
Qed.

Lemma updatePoolRewarder_division_guarded_witness :
  fst (RewarderModule.updatePoolRewarder "0xpool" 2000 fresh_module) <> Thrown DivisionByZero
  /\ (Pool.liquidity pool = 0 \/ 2000 = Pool.rewarder_last_updated_time pool ->
      RewarderModule.updatePoolRewarder "0xpool" 2000 fresh_module
      = (Returned (Pool.set_rewarder_last_updated_time 2000 pool), fresh_module))
  /\ (RewarderModule.growthGlobal
        (snd (RewarderModule.updatePoolRewarder "0xpool" 2000 fresh_module))
      <> RewarderModule.growthGlobal fresh_module ->
      Pool.liquidity pool <> 0 /\ 2000 <> Pool.rewarder_last_updated_time pool).
Proof.
  apply (updatePoolRewarder_division_guarded fresh_module "0xpool" 2000 pool).
  reflexivity.
Defined.

(** A pool without liquidity: the call returns at once and the cached growth
    stays as it was. *)
Example updatePoolRewarder_no_liquidity :
  let empty := Pool.mk "0xpool" "0xa::a::A" "0xb::b::B" (2 ^ 64) 0 2500 0 2 [rewarder] 0 "0xticks" in
  let self := RewarderModule.constructor (CetusClmmSDK.mk (fun _ => Returned empty)) in
  RewarderModule.updatePoolRewarder "0xpool" 2000 self
  = (Returned (Pool.set_rewarder_last_updated_time 2000 empty), self).
Proof. vm_compute. reflexivity. Qed.

(** C4, the claim as stated, fails: ascending ticks are out of order for A
    to B; the call returns a result and has reordered the array. *)
Lemma calculateRates_misordered_ticks_accepted :
  let ticks := [tick 1; tick 2] in
  let call :=
    Scenario.calculateRates (SwapResult.mk 100 90 1 (2 ^ 64) 0) (params true true 100 ticks) in
  ~ Sorted (tick_before true) ticks
  /\ (exists result, snd call = Returned result)
  /\ snd call <> Thrown MalformedTickData
  /\ CalculateRatesParams.swapTicks (fst call) = [tick 2; tick 1].
Proof.
  cbv zeta. split; [|split; [|split]].
  - intros H. apply Sorted_inv in H as [_ H]. apply HdRel_inv in H.
    unfold tick_before in H. cbn in H. lia.
  - eexists. vm_compute. reflexivity.
  - vm_compute. discriminate.
  - vm_compute. reflexivity.
Qed.

(** C5, the claim as stated, fails at the limit itself: a simulation that
    crossed exactly 40 ticks and filled the request is returned with
    [isExceed] unset (and with no extra compute either). *)
Lemma calculateRates_forty_crossings_not_flagged :
  let swapResult := SwapResult.mk 100 90 1 (2 ^ 64) 40 in
  let call := Scenario.calculateRates swapResult (params true true 100 (ticks_below 40)) in
  SwapResult.crossTickNum swapResult = 40
  /\ exists result,
       snd call = Returned result
       /\ CalculateRatesResult.isExceed result = false
       /\ CalculateRatesResult.extraComputeLimit result = 0.
Proof.
  cbv zeta. split; [reflexivity|]. eexists. split; [vm_compute; reflexivity|].
  split; reflexivity.
Qed.

Lemma calculateRates_cross_tick_limit_witness :
  let swapResult := SwapResult.mk 100 90 1 (2 ^ 64) 41 in
  exists result,
    snd (Scenario.calculateRates swapResult (params true true 100 (ticks_below 41)))
    = Returned result
    /\ CalculateRatesResult.isExceed result = true.
Proof.
  apply (calculateRates_cross_tick_limit
           (Scenario.computeSwap (SwapResult.mk 100 90 1 (2 ^ 64) 41))
           MIN_SQRT_PRICE MAX_SQRT_PRICE sqrtPriceX64ToPrice
           (params true true 100 (ticks_below 41))
           (SwapResult.mk 100 90 1 (2 ^ 64) 41)).
  - reflexivity.
  - cbn. lia.
Defined.

Lemma calculateRates_partial_fill_witness :
  let request := params true true 100 (ticks_below 2) in
  let result := CalculateRatesResult.mk 60 55 MIN_SQRT_PRICE 1 true 0 100 true true 0%float in
  snd (Scenario.calculateRates (SwapResult.mk 60 55 1 MIN_SQRT_PRICE 2) request) = Returned result
  /\ CalculateRatesResult.estimatedAmountIn result < CalculateRatesParams.amount request
  /\ CalculateRatesResult.isExceed result = true.
Proof.
  cbv zeta. split; [vm_compute; reflexivity|]. split; [cbn; lia|].
  apply (calculateRates_partial_fill
           (Scenario.computeSwap (SwapResult.mk 60 55 1 MIN_SQRT_PRICE 2))
           MIN_SQRT_PRICE MAX_SQRT_PRICE sqrtPriceX64ToPrice
           (params true true 100 (ticks_below 2))).
  - vm_compute. reflexivity.
  - reflexivity.
  - cbn. lia.
Defined.

(** C7 on a request for 0: the loop would have answered it, and is not
    asked. *)
Lemma calculateRates_rejects_nonpositive_amount_witness :
  snd (SwapModule.calculateRates
         (Clmm.computeSwap (computeSwap (SwapResult.mk 0 0 0 (2 ^ 64) 0)))
         MIN_SQRT_PRICE MAX_SQRT_PRICE sqrtPriceX64ToPrice
         (params true true 0 [tick 1; tick 2]))
  = Thrown InvalidAmount.
Proof.
  apply (calculateRates_rejects_nonpositive_amount
           (computeSwap (SwapResult.mk 0 0 0 (2 ^ 64) 0))
           MIN_SQRT_PRICE MAX_SQRT_PRICE sqrtPriceX64ToPrice
           (params true true 0 [tick 1; tick 2])).
  cbn. lia.
Defined.

(** C8, the claim as stated, fails: the caller's array is in another order
    after the call. *)
Lemma calculateRates_reorders_swapTicks :
  let before := params true true 100 [tick 1; tick 2] in
  let after := fst (Scenario.calculateRates (SwapResult.mk 100 90 1 (2 ^ 64) 0) before) in
  CalculateRatesParams.swapTicks before = [tick 1; tick 2]
  /\ CalculateRatesParams.swapTicks after = [tick 2; tick 1]
  /\ after <> before.
Proof.
  cbv zeta. split; [reflexivity|]. split; [vm_compute; reflexivity|].
  vm_compute. discriminate.
Qed.

End Examples.

(** * Properties of the rest of the SDK *)

(** ** utils/contracts: [compare] and [isSortedSymbols] *)

Section SymbolOrder.

Import Contracts.

Lemma charCodeAt_cons a s i : charCodeAt (String a s) (S i) = charCodeAt s i.
Proof. reflexivity. Qed.

Lemma compare_while_cons a b x y lenCmp remaining :
  forall i,
    compare_while (String a x) (String b y) lenCmp (S i) remaining
    = compare_while x y lenCmp i remaining.
Proof.
  induction remaining as [|n IH]; intros i; cbn [compare_while]; [reflexivity|].
  rewrite !charCodeAt_cons, IH. reflexivity.
Qed.

Lemma cmp_codes a b :
  cmp (Some (Z.of_nat (Ascii.nat_of_ascii a))) (Some (Z.of_nat (Ascii.nat_of_ascii b)))
  = if decide (a = b) then EQUAL
    else if (Ascii.nat_of_ascii a <? Ascii.nat_of_ascii b)%nat then LESS_THAN else GREATER_THAN.
Proof.
  unfold cmp. destruct (decide (a = b)) as [->|Hne].
  - now rewrite Z.eqb_refl.
  - destruct (Z.eqb_spec (Z.of_nat (Ascii.nat_of_ascii a)) (Z.of_nat (Ascii.nat_of_ascii b)))
      as [E|_].
    + exfalso. apply Hne. apply Nat2Z.inj in E.
      rewrite <- (Ascii.ascii_nat_embedding a), <- (Ascii.ascii_nat_embedding b). now rewrite E.
    + destruct (Nat.ltb_spec (Ascii.nat_of_ascii a) (Ascii.nat_of_ascii b));
        destruct (Z.ltb_spec (Z.of_nat (Ascii.nat_of_ascii a)) (Z.of_nat (Ascii.nat_of_ascii b)));
        (reflexivity || lia).
Qed.

Lemma compare_nil_l y : compare "" y = if decide (y = "") then EQUAL else LESS_THAN.
Proof. destruct y; reflexivity. Qed.

Lemma compare_nil_r x : compare x "" = if decide (x = "") then EQUAL else GREATER_THAN.
Proof. destruct x; reflexivity. Qed.

(** Two symbols are compared by their first characters, and by their rests
    when these are the same. *)
Lemma compare_cons a b x y :
  compare (String a x) (String b y)
  = if decide (a = b) then compare x y
    else if (Ascii.nat_of_ascii a <? Ascii.nat_of_ascii b)%nat then LESS_THAN else GREATER_THAN.
Proof.
  unfold compare. cbn [String.length].
  replace (cmp (Some (Z.of_nat (S (String.length x)))) (Some (Z.of_nat (S (String.length y)))))
    with (cmp (Some (Z.of_nat (String.length x))) (Some (Z.of_nat (String.length y)))).
  2:{ unfold cmp.
      destruct (Z.eqb_spec (Z.of_nat (String.length x)) (Z.of_nat (String.length y)));
      destruct (Z.eqb_spec (Z.of_nat (S (String.length x))) (Z.of_nat (S (String.length y))));
      try lia; try reflexivity.
      destruct (Z.ltb_spec (Z.of_nat (String.length x)) (Z.of_nat (String.length y)));
      destruct (Z.ltb_spec (Z.of_nat (S (String.length x))) (Z.of_nat (S (String.length y))));
      (reflexivity || lia). }
  replace ((if (S (String.length x) <=? S (String.length y))%nat
            then S (String.length x) else S (String.length y)) - 0)%nat
    with (S ((if (String.length x <=? String.length y)%nat
              then String.length x else String.length y) - 0))
    by (cbn [Nat.leb]; destruct (String.length x <=? String.length y)%nat; lia).
  cbn [compare_while]. unfold charCodeAt. cbn [String.get].
  rewrite !cmp_codes. fold (charCodeAt (String a x)) (charCodeAt (String b y)).
  rewrite compare_while_cons.
  destruct (decide (a = b)); [reflexivity|].
  destruct (Ascii.nat_of_ascii a <? Ascii.nat_of_ascii b)%nat; reflexivity.
Qed.

Lemma compare_range x : forall y,
  compare x y = EQUAL \/ compare x y = LESS_THAN \/ compare x y = GREATER_THAN.
Proof.
  induction x as [|a x IH]; intros y.
  - rewrite compare_nil_l. destruct (decide _); auto.
  - destruct y as [|b y]; [rewrite compare_nil_r; destruct (decide _); auto|].
    rewrite compare_cons. destruct (decide _); [apply IH|].
    destruct (_ <? _)%nat; auto.
Qed.

Lemma compare_EQUAL_eq x : forall y, compare x y = EQUAL <-> x = y.
Proof.
  induction x as [|a x IH]; intros y.
  - rewrite compare_nil_l. destruct (decide (y = "")) as [->|Hy]; [tauto|].
    split; [discriminate|congruence].
  - destruct y as [|b y]; [rewrite compare_nil_r; destruct (decide _); split; discriminate|].
    rewrite compare_cons. destruct (decide (a = b)) as [->|Hab].
    + rewrite IH. split; [now intros ->|now intros [= ->]].
    + split; [destruct (_ <? _)%nat; discriminate|intros [= -> _]; contradiction].
Qed.

Lemma compare_LESS_THAN_flip x :
  forall y, compare x y = LESS_THAN <-> compare y x = GREATER_THAN.
Proof.
  induction x as [|a x IH]; intros y.
  - rewrite compare_nil_l, compare_nil_r. destruct (decide (y = "")); split; (discriminate || reflexivity).
  - destruct y as [|b y].
    + rewrite compare_nil_l, compare_nil_r. cbn.
      destruct (decide _); split; discriminate.
    + rewrite !compare_cons. destruct (decide (a = b)) as [->|Hab].
      * destruct (decide (b = b)); [apply IH|contradiction].
      * destruct (decide (b = a)) as [E|_]; [symmetry in E; contradiction|].
        assert (Ascii.nat_of_ascii a <> Ascii.nat_of_ascii b).
        { intros E. apply Hab.
          rewrite <- (Ascii.ascii_nat_embedding a), <- (Ascii.ascii_nat_embedding b).
          now rewrite E. }
        destruct (Nat.ltb_spec (Ascii.nat_of_ascii a) (Ascii.nat_of_ascii b));
          destruct (Nat.ltb_spec (Ascii.nat_of_ascii b) (Ascii.nat_of_ascii a));
          split; (reflexivity || discriminate || lia).
Qed.

Lemma compare_LESS_THAN_trans x :
  forall y z, compare x y = LESS_THAN -> compare y z = LESS_THAN -> compare x z = LESS_THAN.
Proof.
  induction x as [|a x IH]; intros y z.
  - rewrite !compare_nil_l. destruct (decide (y = "")) as [->|Hy]; [discriminate|].
    intros _ Hyz. destruct (decide (z = "")) as [->|]; [|reflexivity].
    rewrite compare_nil_r in Hyz. now destruct (decide _).
  - destruct y as [|b y]; [rewrite compare_nil_r; destruct (decide _); discriminate|].
    destruct z as [|c z]; [intros _; rewrite compare_nil_r; destruct (decide _); discriminate|].
    rewrite !compare_cons.
    destruct (decide (a = b)) as [->|Hab]; destruct (decide (b = c)) as [->|Hbc].
    + apply IH.
    + destruct (decide (b = c)); [contradiction|]. auto.
    + destruct (decide (a = c)); [contradiction|]. auto.
    + destruct (Nat.ltb_spec (Ascii.nat_of_ascii a) (Ascii.nat_of_ascii b)); [|discriminate].
      destruct (Nat.ltb_spec (Ascii.nat_of_ascii b) (Ascii.nat_of_ascii c)); [|discriminate].
      intros _ _. destruct (decide (a = c)) as [->|]; [lia|].
      destruct (Nat.ltb_spec (Ascii.nat_of_ascii a) (Ascii.nat_of_ascii c)); [reflexivity|lia].
Qed.

(** X1.  [compare] answers [EQUAL] for a symbol and itself and for no other
    pair of symbols. *)
Theorem compare_EQUAL_iff x y : compare x y = EQUAL <-> x = y.
Proof. apply compare_EQUAL_eq. Qed.

(** X2.  [compare] is antisymmetric: it answers [LESS_THAN] for a pair
    exactly when it answers [GREATER_THAN] for the pair the other way round. *)
Theorem compare_antisymmetric x y : compare x y = LESS_THAN <-> compare y x = GREATER_THAN.
Proof. apply compare_LESS_THAN_flip. Qed.

(** X3.  [isSortedSymbols] is transitive. *)
Theorem isSortedSymbols_transitive x y z :
  isSortedSymbols x y = true -> isSortedSymbols y z = true -> isSortedSymbols x z = true.
Proof.
  unfold isSortedSymbols. rewrite !Z.eqb_eq. apply compare_LESS_THAN_trans.
Qed.

(** X4.  [isSortedSymbols] sorts every pair of different symbols one way
    and not the other, and no symbol before itself. *)
Theorem isSortedSymbols_total x y :
  isSortedSymbols x y = true <-> x <> y /\ isSortedSymbols y x = false.
Proof.
  unfold isSortedSymbols. rewrite Z.eqb_eq, Z.eqb_neq. split.
  - intros Hlt. split.
    + intros ->. rewrite (proj2 (compare_EQUAL_eq y y) eq_refl) in Hlt. discriminate.
    + apply compare_LESS_THAN_flip in Hlt. rewrite Hlt. discriminate.
  - intros [Hne Hyx]. destruct (compare_range x y) as [E|[E|E]].
    + apply compare_EQUAL_eq in E. contradiction.
    + exact E.
    + apply compare_LESS_THAN_flip in E. contradiction.
Qed.

End SymbolOrder.

(** ** modules/routerModule: [unsafe_mul_round], [unsafe_div_round] *)

Section ScaledArithmetic.

Import RouterMath.

Lemma BN_of_number_Done x : Z.abs x < 2 ^ 53 -> BN.of_number x = Done x.
Proof. intros H. unfold BN.of_number. now apply Z.ltb_lt in H as ->. Qed.

Lemma BN_of_number_Raise x : 2 ^ 53 <= Z.abs x -> BN.of_number x = Raise AssertionError.
Proof.
  intros H. unfold BN.of_number. destruct (Z.ltb_spec (Z.abs x) (2 ^ 53)); [lia|reflexivity].
Qed.

Lemma BN_of_number_inv x v : BN.of_number x = Done v -> v = x /\ Z.abs x < 2 ^ 53.
Proof.
  unfold BN.of_number. destruct (Z.ltb_spec (Z.abs x) (2 ^ 53)); [|discriminate].
  intros [= <-]. auto.
Qed.

(** [Number] is exact on the safe integers and keeps the others outside. *)
Lemma BN_toNumber_exact a : Z.abs a < 2 ^ 53 -> BN.toNumber a = a.
Proof. intros H. unfold BN.toNumber. now apply Z.ltb_lt in H as ->. Qed.

Lemma BN_toNumber_large a : 2 ^ 53 <= a -> 2 ^ 53 <= BN.toNumber a.
Proof.
  intros H. unfold BN.toNumber. rewrite (Z.abs_eq a) by lia.
  destruct (Z.ltb_spec a (2 ^ 53)) as [|_]; [lia|]. cbv zeta.
  assert (Hlog : 53 <= Z.log2 a) by (apply Z.log2_le_pow2; lia).
  set (e := Z.log2 a - 52). assert (He : 1 <= e) by (unfold e; lia).
  assert (Hulp : 0 < 2 ^ e) by (apply Z.pow_pos_nonneg; lia).
  assert (Hpow : 2 ^ Z.log2 a = 2 ^ 52 * 2 ^ e).
  { unfold e. rewrite <- Z.pow_add_r by lia. f_equal. lia. }
  assert (Hlo : 2 ^ Z.log2 a <= a) by (apply Z.log2_spec; lia).
  assert (Hq : 2 ^ 52 <= a / 2 ^ e).
  { apply Z.div_le_lower_bound; [lia|]. rewrite Z.mul_comm. lia. }
  rewrite (Z.sgn_pos a) by lia.
  assert (Hle : 2 ^ 52 * 2 ^ e <= a / 2 ^ e * 2 ^ e) by nia.
  assert (H53 : 2 ^ 53 <= 2 ^ 52 * 2 ^ e).
  { rewrite <- Hpow. apply Z.pow_le_mono_r; lia. }
  destruct ((2 * (a mod 2 ^ e) >? 2 ^ e) || _); nia.
Qed.

(** X5.  For arguments that are safe non-negative integers,
    [unsafe_mul_round] returns the product divided by [10^9] and rounded
    down, and the flag says whether anything was cut off. *)
Theorem unsafe_mul_round_floor x y :
  0 <= x < 2 ^ 53 ->
  0 <= y < 2 ^ 53 ->
  exists is_round_down q,
    unsafe_mul_round x y = Done (is_round_down, q)
    /\ q * 10 ^ 9 <= x * y < (q + 1) * 10 ^ 9
    /\ (is_round_down = true <-> q * 10 ^ 9 < x * y).
Proof.
  intros Hx Hy. unfold unsafe_mul_round, BN.mod_, BN.div, FLOAT_SCALING_U128.
  rewrite !BN_of_number_Done by lia. cbn [Try_bind Z.eqb].
  assert (Hxy : 0 <= x * y) by nia.
  rewrite Z.rem_mod_nonneg, Z.quot_div_nonneg by lia.
  pose proof (Z.div_mod (x * y) 1000000000 ltac:(lia)) as Hdm.
  pose proof (Z.mod_pos_bound (x * y) 1000000000 ltac:(lia)) as Hm.
  change (10 ^ 9) with 1000000000.
  eexists _, _. split; [reflexivity|]. split; [lia|].
  destruct (Z.eqb_spec ((x * y) mod 1000000000) 0); split; intros; (discriminate || lia || reflexivity).
Qed.

(** X6.  [unsafe_mul_round] returns exactly for a pair of safe integers;
    outside, the assertion of [bn.js] fails. *)
Theorem unsafe_mul_round_domain x y :
  (exists r, unsafe_mul_round x y = Done r) <-> Z.abs x < 2 ^ 53 /\ Z.abs y < 2 ^ 53.
Proof.
  unfold unsafe_mul_round, BN.mod_, BN.div, FLOAT_SCALING_U128. split.
  - intros [r H].
    destruct (Z.lt_ge_cases (Z.abs x) (2 ^ 53)) as [Hx|Hx];
      [|rewrite (BN_of_number_Raise x Hx) in H; discriminate].
    destruct (Z.lt_ge_cases (Z.abs y) (2 ^ 53)) as [Hy|Hy]; [auto|].
    rewrite (BN_of_number_Done x Hx), (BN_of_number_Raise y Hy) in H. discriminate.
  - intros [Hx Hy]. rewrite !BN_of_number_Done by assumption. cbn. eauto.
Qed.

(** X7.  [unsafe_div_round] fails on a divisor 0; for a safe non-negative
    [x] and a safe positive [y] it returns [x * 10^9 / y] rounded down, and
    the flag says whether anything was cut off. *)
Theorem unsafe_div_round_floor x y :
  0 <= x < 2 ^ 53 ->
  0 <= y < 2 ^ 53 ->
  (y = 0 -> unsafe_div_round x y = Raise AssertionError)
  /\ (0 < y ->
      exists is_round_down q,
        unsafe_div_round x y = Done (is_round_down, q)
        /\ q * y <= x * 10 ^ 9 < (q + 1) * y
        /\ (is_round_down = true <-> q * y < x * 10 ^ 9)).
Proof.
  intros Hx Hy. unfold unsafe_div_round, BN.mod_, BN.div, FLOAT_SCALING_U128.
  rewrite !BN_of_number_Done by lia. cbn [Try_bind]. split.
  - intros ->. reflexivity.
  - intros Hpos. destruct (Z.eqb_spec y 0) as [|_]; [lia|]. cbn [Try_bind].
    rewrite Z.rem_mod_nonneg, Z.quot_div_nonneg by lia.
    pose proof (Z.div_mod (x * 1000000000) y ltac:(lia)) as Hdm.
    pose proof (Z.mod_pos_bound (x * 1000000000) y ltac:(lia)) as Hm.
    change (10 ^ 9) with 1000000000.
    eexists _, _. split; [reflexivity|]. split; [nia|].
    destruct (Z.eqb_spec ((x * 1000000000) mod y) 0); split; intros; (discriminate || nia || reflexivity).
Qed.

(** X8.  Dividing by a price and multiplying by it again never gives more
    than one started with, and gives back all but less than
    [y / 10^9 + 1] of it. *)
Theorem unsafe_mul_unsafe_div x y q p :
  0 <= x ->
  0 < y ->
  unsafe_div x y = Done q ->
  unsafe_mul q y = Done p ->
  p <= x /\ (x - p - 1) * 10 ^ 9 < y.
Proof.
  intros Hx Hy Hdiv Hmul.
  unfold unsafe_div, unsafe_div_round, BN.mod_, BN.div, FLOAT_SCALING_U128 in Hdiv.
  destruct (BN.of_number x) as [xB|] eqn:Ex; [|discriminate].
  destruct (BN.of_number y) as [yB|] eqn:Ey; [|discriminate].
  apply BN_of_number_inv in Ex as [-> Hx53]. apply BN_of_number_inv in Ey as [-> Hy53].
  cbn [Try_bind] in Hdiv. destruct (Z.eqb_spec y 0) as [|_]; [lia|]. cbn [Try_bind] in Hdiv.
  injection Hdiv as <-.
  rewrite Z.quot_div_nonneg in Hmul by lia.
  set (r := x * 1000000000 / y) in *.
  assert (Hr0 : 0 <= r) by (apply Z.div_pos; lia).
  pose proof (Z.div_mod (x * 1000000000) y ltac:(lia)) as Hdm. fold r in Hdm.
  pose proof (Z.mod_pos_bound (x * 1000000000) y ltac:(lia)) as Hm.
  unfold unsafe_mul, unsafe_mul_round, BN.mod_, BN.div, FLOAT_SCALING_U128 in Hmul.
  destruct (BN.of_number (BN.toNumber r)) as [qB|] eqn:Eq; [|discriminate].
  apply BN_of_number_inv in Eq as [-> Hq53].
  assert (Hr53 : r < 2 ^ 53).
  { destruct (Z.lt_ge_cases r (2 ^ 53)) as [|Hge]; [assumption|].
    apply BN_toNumber_large in Hge. lia. }
  rewrite (BN_toNumber_exact r) in Hmul by lia.
  rewrite (BN_of_number_Done y) in Hmul by lia. cbn [Try_bind Z.eqb] in Hmul.
  injection Hmul as <-.
  assert (Hry : 0 <= r * y) by nia.
  rewrite Z.quot_div_nonneg by lia.
  pose proof (Z.div_mod (r * y) 1000000000 ltac:(lia)) as Hdm2.
  pose proof (Z.mod_pos_bound (r * y) 1000000000 ltac:(lia)) as Hm2.
  set (p := r * y / 1000000000) in *.
  assert (Hpx : p <= x) by nia.
  rewrite BN_toNumber_exact by (assert (0 <= p) by (apply Z.div_pos; lia); lia).
  change (10 ^ 9) with 1000000000. split; [exact Hpx|]. nia.
Qed.

End ScaledArithmetic.

(** ** utils/transaction-util: [buildCoinTypePair] *)

Section CoinTypePairs.

Import TransactionUtil.

Local Ltac member_cases H :=
  repeat (apply elem_of_cons in H as [->|H]); [..|now apply elem_of_nil in H].

(** The loop appends one route per intermediate index whose partition
    quantity is not 0. *)
Lemma buildCoinTypePair_for_spec coinTypes partitionQuantities remaining :
  forall i coinTypePair,
    buildCoinTypePair_for coinTypes partitionQuantities i remaining coinTypePair
    = coinTypePair
      ++ map (fun j => [coinTypes !! 0%nat; coinTypes !! j;
                        coinTypes !! (length coinTypes - 1)%nat])
           (filter (fun j => partitionQuantities !! (j - 1)%nat <> Some 0) (seq i remaining)).
Proof.
  induction remaining as [|n IH]; intros i acc; cbn [buildCoinTypePair_for seq].
  - cbn. now rewrite app_nil_r.
  - destruct (partitionQuantities !! (i - 1)%nat) as [[|?|?]|] eqn:E.
    + rewrite IH, filter_cons_False by (rewrite E; intros H; now apply H). reflexivity.
    + rewrite IH, filter_cons_True by (rewrite E; discriminate).
      cbn [map]. now rewrite <- app_assoc.
    + rewrite IH, filter_cons_True by (rewrite E; discriminate).
      cbn [map]. now rewrite <- app_assoc.
    + rewrite IH, filter_cons_True by (rewrite E; discriminate).
      cbn [map]. now rewrite <- app_assoc.
Qed.

(** X9.  Every route that [buildCoinTypePair] returns starts at the first
    coin type and ends at the last one, and there is at least one route; when
    there is a coin type at all, no entry of a route is [undefined]. *)
Theorem buildCoinTypePair_endpoints coinTypes partitionQuantities :
  buildCoinTypePair coinTypes partitionQuantities <> []
  /\ (forall pair, pair ∈ buildCoinTypePair coinTypes partitionQuantities ->
        head pair = Some (coinTypes !! 0%nat)
        /\ last pair = Some (coinTypes !! (length coinTypes - 1)%nat)
        /\ (coinTypes <> [] -> forall c, c ∈ pair -> is_Some c)).
Proof.
  unfold buildCoinTypePair. destruct (Nat.eqb_spec (length coinTypes) 2) as [H2|H2].
  - split; [discriminate|]. intros pair Hin. cbn in Hin.
    apply list_elem_of_singleton in Hin as ->. rewrite H2. cbn.
    repeat split. intros _ c Hc.
    destruct coinTypes as [|c0 [|c1 [|]]]; try discriminate. cbn in Hc.
    member_cases Hc; eauto.
  - rewrite buildCoinTypePair_for_spec. split; [discriminate|].
    intros pair Hin. cbn [app] in Hin.
    apply elem_of_cons in Hin as [->|Hin].
    + cbn. repeat split. intros Hne c Hc.
      member_cases Hc; apply lookup_lt_is_Some;
        destruct coinTypes; try contradiction; cbn; lia.
    + apply list_elem_of_fmap in Hin as (j & -> & Hj).
      apply list_elem_of_filter in Hj as [_ Hj]. apply elem_of_seq in Hj.
      cbn. repeat split. intros Hne c Hc.
      member_cases Hc; apply lookup_lt_is_Some;
        destruct coinTypes; try contradiction; cbn in *; lia.
Qed.

(** X10.  For any number of coin types other than two, the routes are the
    direct one followed by one route through each intermediate coin type, in
    order, whose partition quantity is not 0 (a quantity that is missing
    counts as not 0). *)
Theorem buildCoinTypePair_routes coinTypes partitionQuantities :
  length coinTypes <> 2%nat ->
  buildCoinTypePair coinTypes partitionQuantities
  = [coinTypes !! 0%nat; coinTypes !! (length coinTypes - 1)%nat]
    :: map (fun j => [coinTypes !! 0%nat; coinTypes !! j;
                      coinTypes !! (length coinTypes - 1)%nat])
         (filter (fun j => partitionQuantities !! (j - 1)%nat <> Some 0)
            (seq 1 (length coinTypes - 2))).
Proof.
  intros H2. unfold buildCoinTypePair.
  destruct (Nat.eqb_spec (length coinTypes) 2) as [|_]; [contradiction|].
  rewrite buildCoinTypePair_for_spec. cbn [app].
  now replace (length coinTypes - 1 - 1)%nat with (length coinTypes - 2)%nat by lia.
Qed.

End CoinTypePairs.

(** ** SwapModule: [preSwapWithMultiPool] *)

Section BestPool.

Import PreSwap.

Variable U64_MAX : Z.

Local Abbreviation out item := (BN_of_field (SwapEventData.amount_out (SwapEvent.data item))).
Local Abbreviation exceeded item := (SwapEventData.is_exceed (SwapEvent.data item)).

(** The two comparisons of the loop are one, up to the sign. *)
Lemma preSwapWithMultiPool_for_cons params item rest i m idx :
  let s := if PreSwapWithMultiPoolParams.byAmountIn params then 1 else -1 in
  preSwapWithMultiPool_for params (item :: rest) i m idx
  = if exceeded item then preSwapWithMultiPool_for params rest (S i) m idx
    else if s * out item >? s * m then preSwapWithMultiPool_for params rest (S i) (out item) i
         else preSwapWithMultiPool_for params rest (S i) m idx.
Proof.
  cbn [preSwapWithMultiPool_for]. destruct (exceeded item); [reflexivity|].
  destruct (PreSwapWithMultiPoolParams.byAmountIn params); cbv zeta.
  - now rewrite !Z.mul_1_l.
  - destruct (Z.ltb_spec (out item) m); destruct (Z.gtb_spec (-1 * out item) (-1 * m));
      (reflexivity || lia).
Qed.

Lemma preSwapWithMultiPool_for_best params m0 idx0 rest :
  let s := if PreSwapWithMultiPoolParams.byAmountIn params then 1 else -1 in
  forall done m idx,
    best_so_far s m0 idx0 done m idx ->
    best_so_far s m0 idx0 (done ++ rest)
      (fst (preSwapWithMultiPool_for params rest (length done) m idx))
      (snd (preSwapWithMultiPool_for params rest (length done) m idx)).
Proof.
  intros s. induction rest as [|item rest IH]; intros done m idx Hinv.
  - cbn. now rewrite app_nil_r.
  - rewrite preSwapWithMultiPool_for_cons. fold s.
    replace (done ++ item :: rest) with ((done ++ [item]) ++ rest) by now rewrite <- app_assoc.
    replace (S (length done)) with (length (done ++ [item])) by (rewrite length_app; cbn; lia).
    destruct Hinv as [Hle Hbest].
    assert (Hold : forall j it, (done ++ [item]) !! j = Some it ->
                     done !! j = Some it \/ (j = length done /\ it = item)).
    { intros j it Hj. apply lookup_snoc_Some in Hj as [[_ ?]|[-> ->]]; auto. }
    assert (Hkeep : forall j it, done !! j = Some it -> (done ++ [item]) !! j = Some it).
    { intros j it Hj. now apply lookup_app_l_Some. }
    destruct (exceeded item) eqn:Hex; [|destruct (Z.gtb_spec (s * out item) (s * m)) as [Hgt|Hngt]];
      apply IH; split.
    + intros j it Hj Hopen. destruct (Hold j it Hj) as [?|[-> ->]]; [eauto|congruence].
    + destruct Hbest as [?|(it & Hi & Ho & Hm & Hlt & Hfirst)]; [now left|right].
      exists it. repeat split; auto. intros j it' Hj Hl Ho'.
      destruct (Hold j it' Hl) as [?|[-> ->]]; [eauto|congruence].
    + intros j it Hj Hopen. destruct (Hold j it Hj) as [Hd|[-> ->]]; [|lia].
      specialize (Hle j it Hd Hopen). lia.
    + right. exists item. rewrite lookup_app_r, Nat.sub_diag by lia. repeat split; auto.
      * destruct Hbest as [[_ ->]|(it & _ & _ & _ & Hlt & _)]; lia.
      * intros j it' Hj Hl Ho'. destruct (Hold j it' Hl) as [Hd|[-> _]]; [|lia].
        specialize (Hle j it' Hd Ho'). lia.
    + intros j it Hj Hopen. destruct (Hold j it Hj) as [Hd|[-> ->]]; [eauto|lia].
    + destruct Hbest as [?|(it & Hi & Ho & Hm & Hlt & Hfirst)]; [now left|right].
      exists it. repeat split; auto. intros j it' Hj Hl Ho'.
      destruct (Hold j it' Hl) as [?|[-> ->]]; [eauto|].
      apply lookup_lt_Some in Hi. lia.
Qed.

Lemma preSwapWithMultiPool_for_result params valueData m0 :
  let s := if PreSwapWithMultiPoolParams.byAmountIn params then 1 else -1 in
  best_so_far s m0 0 valueData
    (fst (preSwapWithMultiPool_for params valueData 0 m0 0))
    (snd (preSwapWithMultiPool_for params valueData 0 m0 0)).
Proof.
  intros s. apply (preSwapWithMultiPool_for_best params m0 0%nat valueData [] m0 0%nat).
  split; [intros j item Hj; now rewrite lookup_nil in Hj|now left].
Qed.

(** The index the loop ends on is one of [valueData]. *)
Lemma preSwapWithMultiPool_for_index params valueData m0 :
  valueData <> [] ->
  is_Some (valueData !! snd (preSwapWithMultiPool_for params valueData 0 m0 0)).
Proof.
  intros Hne. destruct (preSwapWithMultiPool_for_result params valueData m0) as [_ [[-> _]|(it & Hi & _)]].
  - destruct valueData; [contradiction|]. cbn. eauto.
  - eauto.
Qed.

(** X11.  [preSwapWithMultiPool] answers [null] when the simulation reported
    no event, throws when the number of events differs from the number of
    pool addresses, and returns the data of one of the pools in every other
    case. *)
Theorem preSwapWithMultiPool_answers params valueData :
  (valueData = [] -> preSwapWithMultiPool U64_MAX params valueData = Done None)
  /\ (valueData <> [] ->
      length valueData <> length (PreSwapWithMultiPoolParams.poolAddresses params) ->
      preSwapWithMultiPool U64_MAX params valueData
      = Raise (Failure "valueData.length !== params.pools.length"))
  /\ (valueData <> [] ->
      length valueData = length (PreSwapWithMultiPoolParams.poolAddresses params) ->
      exists i item poolAddress result,
        preSwapWithMultiPool U64_MAX params valueData = Done (Some result)
        /\ valueData !! i = Some item
        /\ PreSwapWithMultiPoolParams.poolAddresses params !! i = Some poolAddress
        /\ SwapWithMultiPoolData.poolAddress result = Some poolAddress
        /\ SwapWithMultiPoolData.estimatedAmountOut result
           = SwapEventData.amount_out (SwapEvent.data item)
        /\ SwapWithMultiPoolData.isExceed result = exceeded item).
Proof.
  unfold preSwapWithMultiPool. split; [|split].
  - intros ->. reflexivity.
  - intros Hne Hlen.
    destruct (Nat.eqb_spec (length valueData) 0) as [H0|_];
      [destruct valueData; [contradiction|discriminate]|].
    destruct (Nat.eqb_spec (length valueData)
                (length (PreSwapWithMultiPoolParams.poolAddresses params))); [lia|reflexivity].
  - intros Hne Hlen.
    destruct (Nat.eqb_spec (length valueData) 0) as [H0|_];
      [destruct valueData; [contradiction|discriminate]|].
    rewrite Hlen, Nat.eqb_refl. cbn [negb].
    set (m0 := if PreSwapWithMultiPoolParams.byAmountIn params then MathUtil.ZERO else U64_MAX).
    pose proof (preSwapWithMultiPool_for_index params valueData m0 Hne) as [item Hitem].
    destruct (preSwapWithMultiPool_for params valueData 0 m0 0) as [m idx]. cbn [snd] in Hitem.
    rewrite Hitem.
    destruct (lookup_lt_is_Some_2 (PreSwapWithMultiPoolParams.poolAddresses params) idx)
      as [poolAddress Hpool]; [rewrite <- Hlen; now apply lookup_lt_Some in Hitem|].
    exists idx, item, poolAddress. eexists. split; [reflexivity|].
    cbn. rewrite Hpool. auto.
Qed.

(** X12.  Exact input: when some pool is not exceeded and gives more than
    0 out, the pool returned is not exceeded, no pool that is not exceeded
    gives more out, and every such pool before it gives less. *)
Theorem preSwapWithMultiPool_exact_in_best params valueData result :
  PreSwapWithMultiPoolParams.byAmountIn params = true ->
  preSwapWithMultiPool U64_MAX params valueData = Done (Some result) ->
  (exists item, item ∈ valueData /\ exceeded item = false /\ 0 < out item) ->
  exists i item,
    valueData !! i = Some item
    /\ SwapWithMultiPoolData.poolAddress result
       = PreSwapWithMultiPoolParams.poolAddresses params !! i
    /\ SwapWithMultiPoolData.estimatedAmountOut result
       = SwapEventData.amount_out (SwapEvent.data item)
    /\ SwapWithMultiPoolData.isExceed result = false
    /\ (forall j item', valueData !! j = Some item' -> exceeded item' = false ->
          out item' <= out item)
    /\ (forall j item', (j < i)%nat -> valueData !! j = Some item' -> exceeded item' = false ->
          out item' < out item).
Proof.
  intros Hby Hres (good & Hgood & Hopen & Hpos).
  unfold preSwapWithMultiPool in Hres.
  destruct (length valueData =? 0)%nat; [discriminate|].
  destruct (negb _); [discriminate|]. rewrite Hby in Hres.
  pose proof (preSwapWithMultiPool_for_result params valueData MathUtil.ZERO) as Hbest.
  rewrite Hby in Hbest. cbv zeta in Hbest.
  destruct (preSwapWithMultiPool_for params valueData 0 MathUtil.ZERO 0) as [m idx].
  cbn [fst snd] in Hbest. destruct Hbest as [Hle Hbest].
  apply list_elem_of_lookup in Hgood as [k Hk].
  pose proof (Hle k good Hk Hopen) as Hm.
  destruct Hbest as [[_ ->]|(item & Hi & Ho & Hout & Hlt & Hfirst)];
    [unfold MathUtil.ZERO in Hm; lia|].
  rewrite Hi in Hres. injection Hres as <-.
  exists idx, item. cbn. repeat split; auto.
  - intros j item' Hj Ho'. specialize (Hle j item' Hj Ho'). lia.
  - intros j item' Hlt' Hj Ho'. specialize (Hfirst j item' Hlt' Hj Ho'). lia.
Qed.

(** X13.  Exact output: when some pool is not exceeded and reports an
    amount out below [U64_MAX], the pool returned is not exceeded, no pool
    that is not exceeded reports a smaller amount out, and every such pool
    before it reports a larger one. *)
Theorem preSwapWithMultiPool_exact_out_best params valueData result :
  PreSwapWithMultiPoolParams.byAmountIn params = false ->
  preSwapWithMultiPool U64_MAX params valueData = Done (Some result) ->
  (exists item, item ∈ valueData /\ exceeded item = false /\ out item < U64_MAX) ->
  exists i item,
    valueData !! i = Some item
    /\ SwapWithMultiPoolData.poolAddress result
       = PreSwapWithMultiPoolParams.poolAddresses params !! i
    /\ SwapWithMultiPoolData.isExceed result = false
    /\ (forall j item', valueData !! j = Some item' -> exceeded item' = false ->
          out item <= out item')
    /\ (forall j item', (j < i)%nat -> valueData !! j = Some item' -> exceeded item' = false ->
          out item < out item').
Proof.
  intros Hby Hres (good & Hgood & Hopen & Hpos).
  unfold preSwapWithMultiPool in Hres.
  destruct (length valueData =? 0)%nat; [discriminate|].
  destruct (negb _); [discriminate|]. rewrite Hby in Hres.
  pose proof (preSwapWithMultiPool_for_result params valueData U64_MAX) as Hbest.
  rewrite Hby in Hbest. cbv zeta in Hbest.
  destruct (preSwapWithMultiPool_for params valueData 0 U64_MAX 0) as [m idx].
  cbn [fst snd] in Hbest. destruct Hbest as [Hle Hbest].
  apply list_elem_of_lookup in Hgood as [k Hk].
  pose proof (Hle k good Hk Hopen) as Hm.
  destruct Hbest as [[_ ->]|(item & Hi & Ho & Hout & Hlt & Hfirst)]; [lia|].
  rewrite Hi in Hres. injection Hres as <-.
  exists idx, item. cbn. repeat split; auto.
  - intros j item' Hj Ho'. specialize (Hle j item' Hj Ho'). lia.
  - intros j item' Hlt' Hj Ho'. specialize (Hfirst j item' Hlt' Hj Ho'). lia.
Qed.

(** X14.  When every pool is exceeded, the first pool is returned, marked
    as exceeded. *)
Theorem preSwapWithMultiPool_all_exceeded params valueData result :
  preSwapWithMultiPool U64_MAX params valueData = Done (Some result) ->
  (forall item, item ∈ valueData -> exceeded item = true) ->
  SwapWithMultiPoolData.poolAddress result
  = PreSwapWithMultiPoolParams.poolAddresses params !! 0%nat
  /\ SwapWithMultiPoolData.isExceed result = true.
Proof.
  intros Hres Hall. unfold preSwapWithMultiPool in Hres.
  destruct (length valueData =? 0)%nat; [discriminate|].
  destruct (negb _); [discriminate|].
  set (m0 := if PreSwapWithMultiPoolParams.byAmountIn params then MathUtil.ZERO else U64_MAX) in *.
  pose proof (preSwapWithMultiPool_for_result params valueData m0) as Hbest. cbv zeta in Hbest.
  destruct (preSwapWithMultiPool_for params valueData 0 m0 0) as [m idx].
  cbn [fst snd] in Hbest. destruct Hbest as [_ [[-> _]|(item & Hi & Ho & _)]].
  - destruct (valueData !! 0%nat) as [item|] eqn:Hi; [|discriminate].
    injection Hres as <-. cbn. split; [reflexivity|].
    apply Hall. apply list_elem_of_lookup. eauto.
  - rewrite (Hall item) in Ho by (apply list_elem_of_lookup; eauto). discriminate.
Qed.

End BestPool.

(** ** RouterModule: [preRouterSwapA2B2C] *)

Section BestRoute.

Import PreRouter.

Variable U64_MAX : Z.

Local Abbreviation out item := (BN_of_field (SwapEventData.amount_out (SwapEvent.data item))).
Local Abbreviation exceeded item := (SwapEventData.is_exceed (SwapEvent.data item)).

(** For exact input the loop is the one of [preSwapWithMultiPool]. *)
Lemma preRouterSwapA2B2C_for_exact_in params first multi rest :
  PreRouterSwapParams.byAmountIn first = true ->
  PreSwapWithMultiPoolParams.byAmountIn multi = true ->
  forall i m idx,
    preRouterSwapA2B2C_for params first rest i m idx
    = Done (PreSwap.preSwapWithMultiPool_for multi rest i m idx).
Proof.
  intros Hf Hm. induction rest as [|item rest IH]; intros i m idx;
    cbn [preRouterSwapA2B2C_for PreSwap.preSwapWithMultiPool_for]; [reflexivity|].
  rewrite Hf, Hm. cbv zeta.
  destruct (exceeded item); [apply IH|]. destruct (_ >? _); apply IH.
Qed.

Lemma preRouterSwapA2B2C_for_exact_in_best params first valueData :
  PreRouterSwapParams.byAmountIn first = true ->
  exists m idx,
    preRouterSwapA2B2C_for params first valueData 0 MathUtil.ZERO 0 = Done (m, idx)
    /\ best_so_far 1 MathUtil.ZERO 0 valueData m idx.
Proof.
  intros Hf.
  set (multi := PreSwapWithMultiPoolParams.mk [] true true "" "" "").
  rewrite (preRouterSwapA2B2C_for_exact_in params first multi valueData Hf eq_refl).
  pose proof (preSwapWithMultiPool_for_result multi valueData MathUtil.ZERO) as Hbest.
  cbv zeta in Hbest. cbn [PreSwapWithMultiPoolParams.byAmountIn multi] in Hbest.
  destruct (PreSwap.preSwapWithMultiPool_for multi valueData 0 MathUtil.ZERO 0) as [m idx].
  eauto.
Qed.

(** X15.  Exact input: when some route is not exceeded and gives more than
    0 out, the route returned is one of [params] and of the events, is not
    exceeded, gives the amount out it reports, and no route that is not
    exceeded gives more, every such route before it less. *)
Theorem preRouterSwapA2B2C_exact_in_best first others valueData result :
  PreRouterSwapParams.byAmountIn first = true ->
  preRouterSwapA2B2C U64_MAX (first :: others) valueData = Done (Some result) ->
  (exists item, item ∈ valueData /\ exceeded item = false /\ 0 < out item) ->
  exists item chosen,
    valueData !! PreSwapResult.index result = Some item
    /\ (first :: others) !! PreSwapResult.index result = Some chosen
    /\ PreSwapResult.isExceed result = false
    /\ PreSwapResult.amountOut result = out item
    /\ PreSwapResult.amountIn result = PreRouterSwapParams.amount chosen
    /\ (forall j item', valueData !! j = Some item' -> exceeded item' = false ->
          out item' <= out item)
    /\ (forall j item', (j < PreSwapResult.index result)%nat ->
          valueData !! j = Some item' -> exceeded item' = false -> out item' < out item).
Proof.
  intros Hf Hres (good & Hgood & Hopen & Hpos).
  unfold preRouterSwapA2B2C in Hres.
  destruct (length valueData =? 0)%nat; [discriminate|]. rewrite Hf in Hres.
  destruct (preRouterSwapA2B2C_for_exact_in_best (first :: others) first valueData Hf)
    as (m & idx & Hloop & Hle & Hbest).
  rewrite Hloop in Hres. cbn [Try_bind] in Hres.
  apply list_elem_of_lookup in Hgood as [k Hk].
  pose proof (Hle k good Hk Hopen) as Hm.
  destruct Hbest as [[_ ->]|(item & Hi & Ho & Hout & Hlt & Hfirst)];
    [unfold MathUtil.ZERO in Hm; lia|].
  unfold param_at in Hres.
  destruct ((first :: others) !! idx) as [chosen|] eqn:Hc; [|discriminate].
  cbn [Try_bind] in Hres. rewrite Hi in Hres.
  destruct (PreRouterSwapParams.stepNums chosen >? 1); injection Hres as <-;
    exists item, chosen; cbn; repeat split; auto;
    try (intros j item' Hj Ho'; specialize (Hle j item' Hj Ho'); lia);
    try (intros j item' Hlt' Hj Ho'; specialize (Hfirst j item' Hlt' Hj Ho'); lia).
Qed.

(** X16.  Nothing compares the number of events with the number of
    [params]: for exact input, when every event that has a [params] entry is
    exceeded and a later one is not and gives more than 0 out, the call ends
    in a [TypeError]. *)
Theorem preRouterSwapA2B2C_surplus_event first others valueData :
  PreRouterSwapParams.byAmountIn first = true ->
  (forall j item, (j < length (first :: others))%nat -> valueData !! j = Some item ->
     exceeded item = true) ->
  (exists item, item ∈ valueData /\ exceeded item = false /\ 0 < out item) ->
  preRouterSwapA2B2C U64_MAX (first :: others) valueData = Raise NullReference.
Proof.
  intros Hf Hall (good & Hgood & Hopen & Hpos).
  unfold preRouterSwapA2B2C.
  destruct (Nat.eqb_spec (length valueData) 0) as [H0|_];
    [destruct valueData; [now apply elem_of_nil in Hgood|discriminate]|].
  rewrite Hf.
  destruct (preRouterSwapA2B2C_for_exact_in_best (first :: others) first valueData Hf)
    as (m & idx & Hloop & Hle & Hbest).
  rewrite Hloop. cbn [Try_bind].
  apply list_elem_of_lookup in Hgood as [k Hk].
  pose proof (Hle k good Hk Hopen) as Hm.
  destruct Hbest as [[_ ->]|(item & Hi & Ho & _)]; [unfold MathUtil.ZERO in Hm; lia|].
  unfold param_at.
  destruct ((first :: others) !! idx) as [chosen|] eqn:Hc; [|reflexivity].
  apply lookup_lt_Some in Hc. rewrite (Hall idx item Hc Hi) in Ho. discriminate.
Qed.

End BestRoute.

(** ** RewarderModule: [poolRewardersAmount] *)

Section AccountAmounts.

Import RewarderModule RewarderQueries.

Variable getRewardInTickRange :
  Pool.t -> TickData.t -> TickData.t -> Z -> Z -> list Z -> list Z.
Variable getPositionList : string -> list string -> Outcome (list Position.t).
Variable getTickDataByIndex : string -> Z -> Outcome TickData.t.

Local Abbreviation accrue pool position tickLower tickUpper :=
  (RewarderModule.posRewardersAmountInternal getRewardInTickRange
     pool (Position.rewards position) tickLower tickUpper).

(** The accrual hands the instance back as it was, and at most three
    entries. *)
Lemma accrue_frame pool position tickLower tickUpper self :
  snd (accrue pool position tickLower tickUpper self) = self.
Proof. now rewrite posRewardersAmountInternal_unfold. Qed.

Lemma accrue_at_most_three pool position tickLower tickUpper self info :
  fst (accrue pool position tickLower tickUpper self) = Returned info ->
  (length info <= 3)%nat.
Proof.
  rewrite posRewardersAmountInternal_unfold. cbn [fst]. intros H.
  apply owed_entries_length in H. lia.
Qed.

(** The inner loop adds the three amounts of a position that has three,
    and throws on one that has fewer. *)
Lemma poolRewardersAmount_inner_three info a0 a1 a2 :
  poolRewardersAmount_inner info 0 3 [a0; a1; a2]
  = if (3 <=? length info)%nat
    then Returned [a0 + owed_at info 0; a1 + owed_at info 1; a2 + owed_at info 2]
    else Thrown TypeError.
Proof.
  destruct info as [|e0 [|e1 [|e2 info]]]; reflexivity.
Qed.

(** The loop over the positions: it leaves the instance alone, and when it
    returns, every position had three entries, which it has added up. *)
Lemma poolRewardersAmount_for_returned pool tickDatas rest :
  forall i a0 a1 a2 self amounts self',
    poolRewardersAmount_for getRewardInTickRange pool tickDatas rest i [a0; a1; a2] self
    = (Returned amounts, self') ->
    self' = self
    /\ exists infos,
         Forall2 (fun k info =>
                    exists position tickLower tickUpper,
                      rest !! k = Some position
                      /\ fst tickDatas !! (i + k)%nat = Some tickLower
                      /\ snd tickDatas !! (i + k)%nat = Some tickUpper
                      /\ accrue pool position tickLower tickUpper self = (Returned info, self)
                      /\ length info = 3%nat)
           (seq 0 (length rest)) infos
         /\ amounts = [a0 + total_owed infos 0; a1 + total_owed infos 1; a2 + total_owed infos 2].
Proof.
  induction rest as [|position rest IH]; intros i a0 a1 a2 self amounts self'.
  - cbn. intros [= <- <-]. split; [reflexivity|]. exists []. split; [constructor|].
    cbn. now rewrite !Z.add_0_r.
  - cbn [poolRewardersAmount_for]. unfold bind, lift, field_at.
    destruct (fst tickDatas !! i) as [tickLower|] eqn:El; [|discriminate].
    destruct (snd tickDatas !! i) as [tickUpper|] eqn:Eu; [|discriminate].
    cbn [id].
    pose proof (accrue_frame pool position tickLower tickUpper self) as Hframe.
    destruct (accrue pool position tickLower tickUpper self) as [[info|e] self1] eqn:Eacc;
      [|discriminate].
    cbn [snd] in Hframe. subst self1.
    rewrite poolRewardersAmount_inner_three.
    destruct (Nat.leb_spec 3 (length info)) as [H3|H3]; [|discriminate].
    intros Hrest. apply IH in Hrest as (-> & infos & Hall & ->).
    split; [reflexivity|]. exists (info :: infos). split.
    + cbn [length seq]. constructor.
      * exists position, tickLower, tickUpper. rewrite Nat.add_0_r.
        repeat split; auto.
        pose proof (accrue_at_most_three pool position tickLower tickUpper self info) as Hle.
        rewrite Eacc in Hle. specialize (Hle eq_refl). lia.
      * rewrite <- seq_shift. apply Forall2_fmap_l.
        eapply Forall2_impl; [exact Hall|].
        intros k info' (p & tl & tu & Hk & Hl & Hu & Ha & Hlen).
        exists p, tl, tu. replace (i + S k)%nat with (S i + k)%nat by lia. auto.
    + unfold total_owed. cbn [foldr]. f_equal; [|f_equal; [|f_equal]]; lia.
Qed.

(** X17.  When [poolRewardersAmount] returns, it returns three totals: the
    pool has been refreshed by [updatePoolRewarder], every position of the
    account has given three entries on the refreshed instance, and the total
    of rewarder [j] is the sum of the positions' amounts owed of rewarder
    [j]. *)
Theorem poolRewardersAmount_totals currentTime account poolObjectId self amounts self' :
  poolRewardersAmount getRewardInTickRange getPositionList getTickDataByIndex
    currentTime account poolObjectId self = (Returned amounts, self') ->
  exists pool positions tickDatas infos,
    updatePoolRewarder poolObjectId currentTime self = (Returned pool, self')
    /\ getPositionList account [poolObjectId] = Returned positions
    /\ getPoolLowerAndUpperTicks getTickDataByIndex (Pool.ticks_handle pool) positions
       = Returned tickDatas
    /\ Forall2 (fun k info =>
                  exists position tickLower tickUpper,
                    positions !! k = Some position
                    /\ fst tickDatas !! k = Some tickLower
                    /\ snd tickDatas !! k = Some tickUpper
                    /\ accrue pool position tickLower tickUpper self' = (Returned info, self')
                    /\ length info = 3%nat)
         (seq 0 (length positions)) infos
    /\ amounts = [total_owed infos 0; total_owed infos 1; total_owed infos 2].
Proof.
  unfold poolRewardersAmount, bind, lift.
  destruct (updatePoolRewarder poolObjectId currentTime self) as [[pool|e] self1]; [|discriminate].
  destruct (getPositionList account [poolObjectId]) as [positions|]; [|discriminate].
  destruct (getPoolLowerAndUpperTicks _ _ _) as [tickDatas|] eqn:Eticks; [|discriminate].
  intros H. apply poolRewardersAmount_for_returned in H as (-> & infos & Hall & ->).
  exists pool, positions, tickDatas, infos.
  split; [reflexivity|]. split; [reflexivity|]. split; [exact Eticks|]. split; [exact Hall|].
  unfold MathUtil.ZERO. now rewrite !Z.add_0_l.
Qed.

(** X18.  A position whose accrual gives fewer than three entries (the pool
    has fewer than three rewarders) makes [poolRewardersAmount] throw a
    [TypeError]: the inner loop reads three entries of every position. *)
Theorem poolRewardersAmount_fewer_rewarders
    currentTime account poolObjectId self pool self' position others tickDatas
    tickLower tickUpper info :
  updatePoolRewarder poolObjectId currentTime self = (Returned pool, self') ->
  getPositionList account [poolObjectId] = Returned (position :: others) ->
  getPoolLowerAndUpperTicks getTickDataByIndex (Pool.ticks_handle pool) (position :: others)
  = Returned tickDatas ->
  fst tickDatas !! 0%nat = Some tickLower ->
  snd tickDatas !! 0%nat = Some tickUpper ->
  fst (accrue pool position tickLower tickUpper self') = Returned info ->
  (length info < 3)%nat ->
  poolRewardersAmount getRewardInTickRange getPositionList getTickDataByIndex
    currentTime account poolObjectId self = (Thrown TypeError, self').
Proof.
  intros Hupd Hpos Hticks Hl Hu Hacc Hlen.
  unfold poolRewardersAmount, bind, lift. rewrite Hupd, Hpos, Hticks.
  cbn [poolRewardersAmount_for]. unfold bind, lift, field_at. rewrite Hl, Hu. cbn [id].
  pose proof (accrue_frame pool position tickLower tickUpper self') as Hframe.
  destruct (accrue pool position tickLower tickUpper self') as [out self1].
  cbn [fst snd] in *. subst. unfold MathUtil.ZERO.
  rewrite poolRewardersAmount_inner_three.
  destruct (Nat.leb_spec 3 (length info)); [lia|reflexivity].
Qed.

End AccountAmounts.

(** ** RewarderModule: [fetchPosRewardersAmount], [fetchPoolRewardersAmount] *)

Section ChainAmounts.

Import RewarderFetch.

Variable devInspectPositionRewards : list FetchPosRewardParams.t -> Try (list (list Z)).
Variable getPositionList : string -> list string -> Outcome (list Position.t).

(** The entries that one event gives for the rewarders of one request. *)
Local Abbreviation entries_of data rewarderInfo :=
  (imap (fun j rewarder =>
           RewarderAmountOwed.mk (reported_at data j) (Rewarder.coinAddress rewarder))
     rewarderInfo).

Lemma fetchPosRewardersAmount_inner_spec data rest :
  forall j acc,
    fetchPosRewardersAmount_inner data rest j acc
    = acc ++ imap (fun k rewarder =>
                     RewarderAmountOwed.mk (reported_at data (j + k))
                       (Rewarder.coinAddress rewarder)) rest.
Proof.
  induction rest as [|rewarder rest IH]; intros j acc; cbn [fetchPosRewardersAmount_inner imap].
  - now rewrite app_nil_r.
  - rewrite IH, <- app_assoc. cbn [app]. rewrite Nat.add_0_r. do 2 f_equal.
    apply imap_ext. intros k r _. cbn. now replace (S (j + k)) with (j + S k)%nat by lia.
Qed.

(** The result for one request and its event. *)
Local Abbreviation result_of param data :=
  (PosRewarderResult.mk
     (FetchPosRewardParams.poolAddress param)
     (FetchPosRewardParams.positionId param)
     (entries_of data (FetchPosRewardParams.rewarderInfo param))).

Lemma fetchPosRewardersAmount_for_spec params rest :
  forall i acc,
    (i + length rest <= length params)%nat ->
    fetchPosRewardersAmount_for params rest i acc
    = Done (acc ++ zip_with (fun param data => result_of param data) (drop i params) rest).
Proof.
  induction rest as [|data rest IH]; intros i acc Hlen; cbn [fetchPosRewardersAmount_for].
  - destruct (drop i params); cbn; now rewrite app_nil_r.
  - cbn [length] in Hlen.
    destruct (lookup_lt_is_Some_2 params i) as [param Hp]; [lia|].
    rewrite Hp, IH by lia. rewrite <- app_assoc. cbn [app].
    rewrite (drop_S params param i Hp). cbn [zip_with].
    rewrite fetchPosRewardersAmount_inner_spec. reflexivity.
Qed.

(** X19.  With as many events as requests, [fetchPosRewardersAmount]
    returns one result per request, in order: the request's pool and
    position, and one entry per rewarder of the request, with the rewarder's
    coin and the amount the event reports at the rewarder's place (0 when the
    event reports none there).  Without events it answers [null]; with
    another number of events it throws. *)
Theorem fetchPosRewardersAmount_results params valueData :
  devInspectPositionRewards params = Done valueData ->
  (valueData = [] -> fetchPosRewardersAmount devInspectPositionRewards params = Done None)
  /\ (valueData <> [] -> length valueData <> length params ->
      fetchPosRewardersAmount devInspectPositionRewards params
      = Raise (Failure "valueData.length !== params.pools.length"))
  /\ (valueData <> [] -> length valueData = length params ->
      exists result,
        fetchPosRewardersAmount devInspectPositionRewards params = Done (Some result)
        /\ length result = length params
        /\ forall i param data,
             params !! i = Some param -> valueData !! i = Some data ->
             result !! i = Some (result_of param data)).
Proof.
  intros Hev. unfold fetchPosRewardersAmount. rewrite Hev. cbn [Try_bind].
  split; [intros ->; reflexivity|]. split.
  - intros Hne Hlen.
    destruct (Nat.eqb_spec (length valueData) 0) as [H0|_];
      [destruct valueData; [contradiction|discriminate]|].
    destruct (Nat.eqb_spec (length valueData) (length params)); [lia|reflexivity].
  - intros Hne Hlen.
    destruct (Nat.eqb_spec (length valueData) 0) as [H0|_];
      [destruct valueData; [contradiction|discriminate]|].
    rewrite Hlen, Nat.eqb_refl. cbn [negb].
    rewrite fetchPosRewardersAmount_for_spec by (cbn; lia). cbn [Try_bind app].
    eexists. split; [reflexivity|]. split; [rewrite length_zip_with, drop_0; lia|].
    intros i param data Hp Hd. rewrite lookup_zip_with, drop_0, Hp, Hd. reflexivity.
Qed.

(** The inner loop of [fetchPoolRewardersAmount] adds up to three entries,
    and throws on a fourth. *)
Lemma fetchPoolRewardersAmount_inner_three owed a0 a1 a2 :
  fetchPoolRewardersAmount_inner owed 0 [a0; a1; a2]
  = if (length owed <=? 3)%nat
    then Done [a0 + owed_at owed 0; a1 + owed_at owed 1; a2 + owed_at owed 2]
    else Raise NullReference.
Proof.
  destruct owed as [|e0 [|e1 [|e2 [|e3 owed]]]]; cbn; rewrite ?Z.add_0_r; reflexivity.
Qed.

Lemma owed_at_entries data rewarderInfo j :
  owed_at (entries_of data rewarderInfo) j
  = if (j <? length rewarderInfo)%nat then reported_at data j else 0.
Proof.
  unfold owed_at. rewrite list_lookup_imap.
  destruct (Nat.ltb_spec j (length rewarderInfo)) as [Hlt|Hge].
  - destruct (lookup_lt_is_Some_2 rewarderInfo j Hlt) as [r ->]. reflexivity.
  - now rewrite (lookup_ge_None_2 rewarderInfo j Hge).
Qed.

Lemma fetchPoolRewardersAmount_for_spec rewarderInfo (mk_result : list Z -> PosRewarderResult.t) :
  (length rewarderInfo <= 3)%nat ->
  (forall data, PosRewarderResult.rewarderAmountOwed (mk_result data) = entries_of data rewarderInfo) ->
  forall valueData a0 a1 a2,
    fetchPoolRewardersAmount_for (map mk_result valueData) [a0; a1; a2]
    = Done [a0 + (if (0 <? length rewarderInfo)%nat then total_reported valueData 0 else 0);
            a1 + (if (1 <? length rewarderInfo)%nat then total_reported valueData 1 else 0);
            a2 + (if (2 <? length rewarderInfo)%nat then total_reported valueData 2 else 0)].
Proof.
  intros Hk Hmk. induction valueData as [|data valueData IH]; intros a0 a1 a2.
  - cbn [map fetchPoolRewardersAmount_for total_reported foldr].
    repeat (destruct (_ <? _)%nat); now rewrite !Z.add_0_r.
  - cbn [map fetchPoolRewardersAmount_for]. rewrite Hmk, fetchPoolRewardersAmount_inner_three.
    rewrite length_imap. destruct (Nat.leb_spec (length rewarderInfo) 3); [|lia].
    cbn [Try_bind]. rewrite IH, !owed_at_entries. unfold total_reported. cbn [foldr].
    do 3 (destruct (_ <? length rewarderInfo)%nat); f_equal; f_equal; try lia; f_equal; try lia;
      f_equal; lia.
Qed.

(** X20.  For a pool of at most three rewarders, [fetchPoolRewardersAmount]
    returns three totals when the chain reports one event per position of
    the account (or none at all): at the place of each rewarder of the pool
    the sum of the amounts the events report there, and 0 at the other
    places. *)
Theorem fetchPoolRewardersAmount_totals self account poolObjectId pool positions valueData :
  CetusClmmSDK.getPool (RewarderModule._sdk self) poolObjectId = Returned pool ->
  (length (Pool.rewarder_infos pool) <= 3)%nat ->
  getPositionList account [poolObjectId] = Returned positions ->
  devInspectPositionRewards
    (map (fun position =>
            FetchPosRewardParams.mk (Pool.poolAddress pool) (Position.pos_object_id position)
              (Pool.coinTypeA pool) (Pool.coinTypeB pool) (Pool.rewarder_infos pool))
       positions)
  = Done valueData ->
  valueData = [] \/ length valueData = length positions ->
  fetchPoolRewardersAmount devInspectPositionRewards getPositionList self account poolObjectId
  = Done (map (fun j => if (j <? length (Pool.rewarder_infos pool))%nat
                        then total_reported valueData j else 0)
            [0; 1; 2]%nat).
Proof.
  intros Hpool Hk Hpos Hev Hlen.
  unfold fetchPoolRewardersAmount. rewrite Hpool, Hpos. cbn [escape Try_bind].
  set (params := map _ positions) in *.
  destruct valueData as [|data valueData].
  - unfold fetchPosRewardersAmount. rewrite Hev.
    cbn [Try_bind length Nat.eqb map total_reported foldr].
    now repeat (destruct (_ <? _)%nat).
  - destruct Hlen as [|Hlen]; [discriminate|].
    assert (Hlenp : length (data :: valueData) = length params)
      by (unfold params; now rewrite length_map).
    unfold fetchPosRewardersAmount. rewrite Hev. cbn [Try_bind].
    replace (length (data :: valueData) =? 0)%nat with false by reflexivity.
    rewrite Hlenp, Nat.eqb_refl. cbn [negb].
    rewrite fetchPosRewardersAmount_for_spec by (cbn [length] in *; lia).
    cbn [Try_bind app].
    set (mk_result := fun d : list Z =>
           PosRewarderResult.mk (Pool.poolAddress pool) ""
             (entries_of d (Pool.rewarder_infos pool))).
    transitivity (fetchPoolRewardersAmount_for (map mk_result (data :: valueData))
                    [MathUtil.ZERO; MathUtil.ZERO; MathUtil.ZERO]).
    + assert (Hgen : forall (l1 l2 : list PosRewarderResult.t) acc,
                Forall2 (fun r1 r2 => PosRewarderResult.rewarderAmountOwed r1
                                      = PosRewarderResult.rewarderAmountOwed r2) l1 l2 ->
                fetchPoolRewardersAmount_for l1 acc = fetchPoolRewardersAmount_for l2 acc).
      { intros l1 l2 acc H. revert acc. induction H as [|r1 r2 l1 l2 Hr _ IH]; intros acc;
          cbn [fetchPoolRewardersAmount_for]; [reflexivity|].
        rewrite Hr. destruct (fetchPoolRewardersAmount_inner _ _ _); cbn [Try_bind];
          [apply IH|reflexivity]. }
      apply Hgen. rewrite drop_0. apply Forall2_same_length_lookup. split.
      * rewrite length_zip_with, length_map. cbn [length] in *. lia.
      * intros i r1 r2 H1 H2. rewrite lookup_zip_with in H1.
        rewrite list_lookup_fmap in H2. unfold params in H1.
        rewrite list_lookup_fmap in H1.
        destruct ((data :: valueData) !! i) as [d|] eqn:Hd; [|discriminate].
        destruct (positions !! i) as [position|]; [|discriminate].
        cbn in H1, H2. injection H1 as <-. injection H2 as <-. reflexivity.
    + unfold MathUtil.ZERO.
      rewrite (fetchPoolRewardersAmount_for_spec (Pool.rewarder_infos pool) mk_result Hk)
        by reflexivity.
      cbn [map]. now rewrite !Z.add_0_l.
Qed.

End ChainAmounts.

(** ** utils/transaction-util: [fixSwapParams] *)

Section FixSwap.

Import SwapTransaction.

Variable computeSwap :
  bool -> bool -> Z -> ClmmpoolData.t -> list TickData.t -> Outcome SwapResult.t.
Variables MIN_SQRT_PRICE MAX_SQRT_PRICE : Z.
Variable sqrtPriceX64ToPrice : Z -> Z -> Z -> float.
Variable Percentage : Type.
Variable adjustForSlippage : Z -> Percentage -> bool -> Z.

Local Abbreviation fixSwapParams :=
  (SwapTransaction.fixSwapParams computeSwap MIN_SQRT_PRICE MAX_SQRT_PRICE sqrtPriceX64ToPrice
     Percentage adjustForSlippage).

(** X21.  [fixSwapParams] leaves the caller's [gasEstimateArg] with its
    ticks sorted for the direction of [params] and otherwise as it was; it
    throws what the simulation throws on the sorted ticks; and when the
    simulation returns, it returns [params] with only [amount_limit] changed,
    to the slippage-adjusted amount out of the simulation when
    [gasEstimateArg.byAmountIn] holds and to the adjusted amount in
    otherwise. *)
Theorem fixSwapParams_effect params gasEstimateArg :
  let sorted :=
    Array_sort (tick_compareFn (SwapParams.a2b params)) (GasEstimateArg.swapTicks gasEstimateArg) in
  let simulation :=
    computeSwap (SwapParams.a2b params) (SwapParams.by_amount_in params) (SwapParams.amount params)
      (transClmmpoolDataWithoutTicks (GasEstimateArg.currentPool gasEstimateArg)) sorted in
  fst (fixSwapParams params gasEstimateArg) = GasEstimateArg.set_swapTicks sorted gasEstimateArg
  /\ (forall e, snd (fixSwapParams params gasEstimateArg) = Thrown e <-> simulation = Thrown e)
  /\ (forall swapResult,
        simulation = Returned swapResult ->
        snd (fixSwapParams params gasEstimateArg)
        = Returned
            (SwapParams.set_amount_limit
               (adjustForSlippage
                  (if GasEstimateArg.byAmountIn gasEstimateArg
                   then SwapResult.amountOut swapResult else SwapResult.amountIn swapResult)
                  (GasEstimateArg.slippage gasEstimateArg)
                  (negb (GasEstimateArg.byAmountIn gasEstimateArg)))
               params)).
Proof.
  cbv zeta. unfold SwapTransaction.fixSwapParams.
  set (request := CalculateRatesParams.mk _ _ _ _ _ _ _).
  pose proof (calculateRates_params computeSwap MIN_SQRT_PRICE MAX_SQRT_PRICE
                sqrtPriceX64ToPrice request) as Hfst.
  pose proof (calculateRates_outcome computeSwap MIN_SQRT_PRICE MAX_SQRT_PRICE
                sqrtPriceX64ToPrice request) as Hsnd.
  destruct (SwapModule.calculateRates _ _ _ _ request) as [request' res].
  cbn [fst snd] in *. subst request' res.
  cbn [request CalculateRatesParams.set_swapTicks CalculateRatesParams.swapTicks
       CalculateRatesParams.a2b CalculateRatesParams.byAmountIn CalculateRatesParams.amount
       CalculateRatesParams.currentPool].
  split; [reflexivity|]. split.
  - intros e. destruct (computeSwap _ _ _ _ _); cbn [Outcome_bind]; split; congruence.
  - intros swapResult ->. cbn [Outcome_bind]. destruct gasEstimateArg as [[] ? ? ? ? ?]; reflexivity.
Qed.

End FixSwap.

(** ** modules/routerModule: coins, paths and pool addresses *)

Section PoolAddresses.

Import RouterModule.

Variable Graph : Type.
Variable addEdge : Graph -> string -> string -> Try Graph.
Variable localeCompare : string -> string -> Z.

Implicit Types (self : RouterModule.t Graph) (path : PathLink.t).

Local Abbreviation addPathProvider_for := (RouterModule.addPathProvider_for localeCompare).
Local Abbreviation addPathProvider := (RouterModule.addPathProvider localeCompare).
Local Abbreviation loadGraph_paths := (RouterModule.loadGraph_paths Graph addEdge).
Local Abbreviation loadGraph_providers := (RouterModule.loadGraph_providers Graph addEdge).
Local Abbreviation loadGraph := (RouterModule.loadGraph addEdge localeCompare).

Lemma last_written_app {A B : Type} (value : A -> B) before (l1 l2 : list A) :
  last_written value before (l1 ++ l2) = last_written value (last_written value before l1) l2.
Proof. unfold last_written. rewrite last_app. now destruct (last l2). Qed.

Lemma last_written_cons {A B : Type} (value : A -> B) before (a : A) (l : list A) :
  last_written value before (a :: l) = last_written value (Some (value a)) l.
Proof. unfold last_written. rewrite last_cons. now destruct (last l). Qed.

Lemma addPathProvider_for_spec paths :
  Forall2
    (fun path path' =>
       PathLink.addressMap path' = PathLink.addressMap path
       /\ (PathLink.base path', PathLink.quote path')
          = if String.eqb (PathLink.quote path) sui_coin_type
            then (PathLink.base path, PathLink.quote path)
            else if String.eqb (PathLink.base path) sui_coin_type
            then (PathLink.quote path, PathLink.base path)
            else if localeCompare (PathLink.base path) (PathLink.quote path) <? 0
            then (PathLink.quote path, PathLink.base path)
            else (PathLink.base path, PathLink.quote path))
    paths (addPathProvider_for paths).
Proof.
  induction paths as [|[base quote addressMap] rest IH]; [constructor|].
  cbn [RouterModule.addPathProvider_for PathLink.base PathLink.quote PathLink.addressMap].
  constructor; [|exact IH]. unfold sui_coin_type.
  cbn [PathLink.base PathLink.quote PathLink.addressMap].
  destruct (localeCompare base quote <? 0), (String.eqb base _), (String.eqb quote _);
    split; reflexivity.
Qed.

(** X22.  [addPathProvider] keeps every path link in its place with its
    address map and its two coins, in this order or swapped; and a link one
    of whose coins is SUI has SUI as its quote afterwards, whatever
    [localeCompare] says. *)
Theorem addPathProvider_sui_quote provider self :
  Forall2
    (fun path path' =>
       PathLink.addressMap path' = PathLink.addressMap path
       /\ ((PathLink.base path', PathLink.quote path')
             = (PathLink.base path, PathLink.quote path)
           \/ (PathLink.base path', PathLink.quote path')
             = (PathLink.quote path, PathLink.base path))
       /\ (PathLink.base path = sui_coin_type \/ PathLink.quote path = sui_coin_type ->
           PathLink.quote path' = sui_coin_type))
    (PathProvider.paths provider)
    (PathProvider.paths (fst (addPathProvider provider self))).
Proof.
  cbn [RouterModule.addPathProvider fst PathProvider.paths].
  eapply Forall2_impl; [apply addPathProvider_for_spec|].
  intros path path' [Hmap Hpair]. split; [exact Hmap|].
  destruct (String.eqb_spec (PathLink.quote path) sui_coin_type) as [Hq|Hq];
    [|destruct (String.eqb_spec (PathLink.base path) sui_coin_type) as [Hb|Hb];
      [|destruct (localeCompare (PathLink.base path) (PathLink.quote path) <? 0)]];
    injection Hpair as Hbase Hquote; rewrite Hbase, Hquote;
    (split; [auto|intros [?|?]; congruence]).
Qed.

(** X23.  When [localeCompare] answers a swapped pair with the opposite
    sign, every path link has, after [addPathProvider], SUI as its quote or
    a base that does not sort before its quote. *)
Theorem addPathProvider_ordered provider self :
  (forall a b, localeCompare a b < 0 -> 0 < localeCompare b a) ->
  Forall
    (fun path' =>
       PathLink.quote path' = sui_coin_type
       \/ 0 <= localeCompare (PathLink.base path') (PathLink.quote path'))
    (PathProvider.paths (fst (addPathProvider provider self))).
Proof.
  intros Hopposite.
  cbn [RouterModule.addPathProvider fst PathProvider.paths].
  pose proof (addPathProvider_for_spec (PathProvider.paths provider)) as Hspec.
  induction Hspec as [|path path' rest rest' [_ Hpair] _ IH]; constructor; [|exact IH].
  destruct (String.eqb_spec (PathLink.quote path) sui_coin_type) as [Hq|Hq];
    [|destruct (String.eqb_spec (PathLink.base path) sui_coin_type) as [Hb|Hb];
      [|destruct (Z.ltb_spec (localeCompare (PathLink.base path) (PathLink.quote path)) 0)
          as [Hlt|Hge]]];
    injection Hpair as Hbase Hquote; rewrite Hbase, Hquote.
  - now left.
  - now left.
  - right. apply Hopposite in Hlt. lia.
  - right. exact Hge.
Qed.

(** X24.  [getPoolAddressMapAndDirection] finds a pool for a pair of coins
    exactly when it finds one for the swapped pair; and an answer with
    direction [false] is the answer with direction [true], and the same
    address map, for the swapped pair. *)
Theorem getPoolAddressMapAndDirection_swapped self base quote :
  (getPoolAddressMapAndDirection self base quote = None
   <-> getPoolAddressMapAndDirection self quote base = None)
  /\ (forall found,
        getPoolAddressMapAndDirection self base quote = Some found ->
        AddressAndDirection.direction found = false ->
        getPoolAddressMapAndDirection self quote base
        = Some (AddressAndDirection.mk (AddressAndDirection.addressMap found) true)).
Proof.
  unfold getPoolAddressMapAndDirection, _pairSymbol.
  cbn [PairSymbol.pair PairSymbol.reversePair].
  destruct (poolAddressMap self !! (base +:+ "-" +:+ quote)) as [forward|],
           (poolAddressMap self !! (quote +:+ "-" +:+ base)) as [backward|];
    (split; [split; congruence|]); intros found Hfound Hdirection;
    inversion Hfound; subst found; cbn in Hdirection; (discriminate || reflexivity).
Qed.

Lemma setCoinList_forEach_frame coins self :
  graph (setCoinList_forEach Graph coins self) = graph self
  /\ pathProviders (setCoinList_forEach Graph coins self) = pathProviders self
  /\ coinProviders (setCoinList_forEach Graph coins self) = coinProviders self
  /\ poolAddressMap (setCoinList_forEach Graph coins self) = poolAddressMap self.
Proof.
  revert self. induction coins as [|coin rest IH]; intros self; [easy|].
  cbn [setCoinList_forEach]. now destruct (IH (set__coinAddressMap Graph
    (<[CoinNode.address coin := coin]> (_coinAddressMap self)) self)) as (-> & -> & -> & ->).
Qed.

Lemma setCoinList_forEach_lookup coins self key :
  _coinAddressMap (setCoinList_forEach Graph coins self) !! key
  = last_written id (_coinAddressMap self !! key)
      (filter (fun coin => CoinNode.address coin = key) coins).
Proof.
  revert self. induction coins as [|coin rest IH]; intros self; [reflexivity|].
  cbn [setCoinList_forEach]. rewrite IH, filter_cons.
  cbn [_coinAddressMap set__coinAddressMap]. rewrite lookup_insert.
  destruct (decide (CoinNode.address coin = key)); [|reflexivity].
  now rewrite last_written_cons.
Qed.

Lemma loadGraph_paths_frame paths self :
  pathProviders (snd (loadGraph_paths paths self)) = pathProviders self
  /\ coinProviders (snd (loadGraph_paths paths self)) = coinProviders self
  /\ _coinAddressMap (snd (loadGraph_paths paths self)) = _coinAddressMap self.
Proof.
  revert self. induction paths as [|path rest IH]; intros self; [easy|].
  cbn [RouterModule.loadGraph_paths].
  destruct (addEdge _ _ _) as [graph'|e]; [|easy].
  cbn [_coinAddressMap set_graph].
  destruct (_coinAddressMap self !! PathLink.base path),
           (_coinAddressMap self !! PathLink.quote path);
    match goal with |- context [loadGraph_paths rest ?s] => destruct (IH s) as (-> & -> & ->) end;
    easy.
Qed.

Lemma loadGraph_providers_frame providers self :
  pathProviders (snd (loadGraph_providers providers self)) = pathProviders self
  /\ coinProviders (snd (loadGraph_providers providers self)) = coinProviders self
  /\ _coinAddressMap (snd (loadGraph_providers providers self)) = _coinAddressMap self.
Proof.
  revert self. induction providers as [|provider rest IH]; intros self; [easy|].
  cbn [RouterModule.loadGraph_providers].
  pose proof (loadGraph_paths_frame (PathProvider.paths provider) self) as Hframe.
  destruct (loadGraph_paths _ self) as [[[]|e] self']; cbn [snd] in Hframe.
  - destruct (IH self') as (-> & -> & ->). exact Hframe.
  - exact Hframe.
Qed.

Lemma loadGraph_paths_lookup paths self self' key :
  loadGraph_paths paths self = (Done tt, self') ->
  poolAddressMap self' !! key
  = last_written PathLink.addressMap (poolAddressMap self !! key)
      (filter (registers (_coinAddressMap self) key) paths).
Proof.
  revert self. induction paths as [|path rest IH]; intros self Hrun.
  - injection Hrun as <-. reflexivity.
  - cbn [RouterModule.loadGraph_paths] in Hrun.
    destruct (addEdge _ _ _) as [graph'|e]; [|discriminate].
    apply IH in Hrun. rewrite Hrun, filter_cons. clear Hrun IH.
    cbn [_coinAddressMap set_graph].
    destruct (decide (registers (_coinAddressMap self) key path)) as [Hreg|Hreg].
    + destruct Hreg as (Hkey & [coinA HA] & [coinB HB]). rewrite HA, HB.
      cbn [_coinAddressMap poolAddressMap set_poolAddressMap set_graph].
      rewrite Hkey, lookup_insert_eq, last_written_cons. reflexivity.
    + destruct (_coinAddressMap self !! PathLink.base path) as [coinA|] eqn:HA;
        [destruct (_coinAddressMap self !! PathLink.quote path) as [coinB|] eqn:HB|];
        cbn [_coinAddressMap poolAddressMap set_poolAddressMap set_graph];
        try reflexivity.
      rewrite lookup_insert_ne; [reflexivity|].
      intros Hkey. apply Hreg. unfold registers. rewrite HA, HB. eauto.
Qed.

Lemma loadGraph_providers_lookup providers self self' key :
  loadGraph_providers providers self = (Done tt, self') ->
  poolAddressMap self' !! key
  = last_written PathLink.addressMap (poolAddressMap self !! key)
      (filter (registers (_coinAddressMap self) key)
         (concat (map PathProvider.paths providers))).
Proof.
  revert self. induction providers as [|provider rest IH]; intros self Hrun.
  - injection Hrun as <-. reflexivity.
  - cbn [RouterModule.loadGraph_providers] in Hrun.
    pose proof (loadGraph_paths_frame (PathProvider.paths provider) self) as (_ & _ & Hcoins).
    pose proof (loadGraph_paths_lookup (PathProvider.paths provider) self) as Hpaths.
    destruct (loadGraph_paths _ self) as [[[]|e] self1]; [|discriminate].
    cbn [snd] in Hcoins. apply IH in Hrun.
    rewrite Hrun, Hcoins, (Hpaths self1 key eq_refl).
    cbn [map concat]. now rewrite filter_app, last_written_app.
Qed.

Lemma loadGraph_paths_returns paths self :
  (forall graph base quote, exists graph', addEdge graph base quote = Done graph') ->
  exists self', loadGraph_paths paths self = (Done tt, self').
Proof.
  intros Hedge. revert self. induction paths as [|path rest IH]; intros self; [now eexists|].
  cbn [RouterModule.loadGraph_paths].
  destruct (Hedge (graph self) (PathLink.base path) (PathLink.quote path)) as [graph' ->].
  apply IH.
Qed.

(** X25.  After [loadGraph(coins, paths)], whether it returned or the graph
    threw, [tokenInfo(key)] is the last coin of [coins] with the address
    [key], and, when there is none, what it was before the call: coins of
    earlier calls stay known. *)
Theorem loadGraph_tokenInfo coins paths self key :
  tokenInfo (snd (snd (loadGraph coins paths self))) key
  = last_written id (tokenInfo self key)
      (filter (fun coin => CoinNode.address coin = key) (CoinProvider.coins coins)).
Proof.
  unfold RouterModule.loadGraph, RouterModule.addPathProvider, addCoinProvider, setCoinList, tokenInfo.
  cbn [snd pathProviders coinProviders set_pathProviders set_coinProviders].
  match goal with |- context [loadGraph_providers ?ps ?s] =>
    destruct (loadGraph_providers_frame ps s) as (_ & _ & ->) end.
  now rewrite setCoinList_forEach_lookup.
Qed.

(** X26.  When [loadGraph(coins, paths)] returns, the pool address map holds
    at every pool symbol the address map of the last path link, through all
    providers in the order they were added and [paths] last, that has this
    symbol and two known coins; and, when there is no such link, what it
    held before. *)
Theorem loadGraph_poolAddressMap coins paths self paths' self' key :
  loadGraph coins paths self = (paths', (Done tt, self')) ->
  poolAddressMap self' !! key
  = last_written PathLink.addressMap (poolAddressMap self !! key)
      (filter (registers (_coinAddressMap self') key)
         (concat (map PathProvider.paths (pathProviders self ++ [paths'])))).
Proof.
  unfold RouterModule.loadGraph, RouterModule.addPathProvider, addCoinProvider, setCoinList.
  cbn [pathProviders coinProviders set_pathProviders set_coinProviders].
  intros Hrun. injection Hrun as <- Hrun.
  set (provider := PathProvider.mk (addPathProvider_for (PathProvider.paths paths))) in *.
  set (self0 := set_pathProviders Graph _ _) in *.
  pose proof (setCoinList_forEach_frame (CoinProvider.coins coins) self0)
    as (_ & Hproviders & _ & Hpools).
  set (self1 := setCoinList_forEach Graph _ self0) in *.
  pose proof (loadGraph_providers_frame (pathProviders self1) self1) as (_ & _ & Hcoins).
  rewrite Hrun in Hcoins. cbn [snd] in Hcoins.
  apply loadGraph_providers_lookup with (key := key) in Hrun.
  rewrite Hrun, Hcoins, Hpools, Hproviders. reflexivity.
Qed.

(** X27.  When [loadGraph(coins, paths)] returns, every path link of [paths],
    as [addPathProvider] has left it, whose two coins are known is found by
    [getPoolAddressMapAndDirection(base, quote)] with direction [true]. *)
Theorem loadGraph_getPoolAddressMapAndDirection coins paths self paths' self' path :
  loadGraph coins paths self = (paths', (Done tt, self')) ->
  path ∈ PathProvider.paths paths' ->
  is_Some (tokenInfo self' (PathLink.base path)) ->
  is_Some (tokenInfo self' (PathLink.quote path)) ->
  exists addressMap,
    getPoolAddressMapAndDirection self' (PathLink.base path) (PathLink.quote path)
    = Some (AddressAndDirection.mk addressMap true).
Proof.
  unfold RouterModule.loadGraph, RouterModule.addPathProvider, addCoinProvider, setCoinList, tokenInfo.
  cbn [pathProviders coinProviders set_pathProviders set_coinProviders].
  intros Hrun Hin HA HB. injection Hrun as <- Hrun.
  set (provider := PathProvider.mk (addPathProvider_for (PathProvider.paths paths))) in *.
  set (self0 := set_pathProviders Graph _ _) in *.
  pose proof (setCoinList_forEach_frame (CoinProvider.coins coins) self0)
    as (_ & Hproviders & _ & _).
  set (self1 := setCoinList_forEach Graph _ self0) in *.
  pose proof (loadGraph_providers_frame (pathProviders self1) self1) as (_ & _ & Hcoins).
  rewrite Hrun in Hcoins. cbn [snd] in Hcoins.
  apply loadGraph_providers_lookup
    with (key := PairSymbol.pair (_pairSymbol (PathLink.base path) (PathLink.quote path)))
    in Hrun.
  rewrite <- Hcoins, Hproviders in Hrun.
  unfold getPoolAddressMapAndDirection. rewrite Hrun. clear Hrun.
  cbn [pathProviders self0 set_pathProviders].
  rewrite map_app, concat_app, filter_app, last_written_app.
  cbn [map concat PathProvider.paths]. rewrite app_nil_r.
  apply list_elem_of_split in Hin as (before & after & ->).
  rewrite filter_app, last_written_app, filter_cons.
  destruct (decide (registers _ _ path)) as [_|Hreg]; [|now destruct Hreg].
  rewrite last_written_cons. unfold last_written.
  destruct (last _); eauto.
Qed.

(** X28.  [loadGraph] throws nothing of its own: with a graph that accepts
    every edge it returns. *)
Theorem loadGraph_returns coins paths self :
  (forall graph base quote, exists graph', addEdge graph base quote = Done graph') ->
  exists self', snd (loadGraph coins paths self) = (Done tt, self').
Proof.
  intros Hedge. unfold RouterModule.loadGraph, RouterModule.addPathProvider. cbn [snd].
  generalize (setCoinList (set_pathProviders Graph
    (pathProviders (addCoinProvider coins self)
       ++ [PathProvider.mk (addPathProvider_for (PathProvider.paths paths))])
    (addCoinProvider coins self))) as self0.
  intros self0. generalize (pathProviders self0) as providers. intros providers.
  revert self0. induction providers as [|provider rest IH]; intros self0; [now eexists|].
  cbn [RouterModule.loadGraph_providers].
  destruct (loadGraph_paths_returns (PathProvider.paths provider) self0 Hedge) as [self1 ->].
  apply IH.
Qed.

End PoolAddresses.

(** ** The properties on the scenarios *)

Section SdkExamples.

Import SdkScenario.

Local Abbreviation out item := (BN_of_field (SwapEventData.amount_out (SwapEvent.data item))).
Local Abbreviation exceeded item := (SwapEventData.is_exceed (SwapEvent.data item)).

(** Three symbols in order. *)
Lemma isSortedSymbols_transitive_witness :
  Contracts.isSortedSymbols "0x2::sui::SUI" "0xusdc::usdc::USDC" = true.
Proof.
  apply (isSortedSymbols_transitive "0x2::sui::SUI" "0xcetus::cetus::CETUS" "0xusdc::usdc::USDC");
    reflexivity.
Defined.

(** 1.5 times 3 is 4, and something is cut off. *)
Lemma unsafe_mul_round_floor_witness :
  exists is_round_down q,
    RouterMath.unsafe_mul_round 1500000000 3 = Done (is_round_down, q)
    /\ q * 10 ^ 9 <= 1500000000 * 3 < (q + 1) * 10 ^ 9
    /\ (is_round_down = true <-> q * 10 ^ 9 < 1500000000 * 3).
Proof. apply (unsafe_mul_round_floor 1500000000 3); lia. Defined.

Lemma unsafe_div_round_floor_witness :
  (3 = 0 -> RouterMath.unsafe_div_round 7 3 = Raise AssertionError)
  /\ (0 < 3 ->
      exists is_round_down q,
        RouterMath.unsafe_div_round 7 3 = Done (is_round_down, q)
        /\ q * 3 <= 7 * 10 ^ 9 < (q + 1) * 3
        /\ (is_round_down = true <-> q * 3 < 7 * 10 ^ 9)).
Proof. apply (unsafe_div_round_floor 7 3); lia. Defined.

(** A million at the price 3: a third of it, and one short of the million
    back. *)
Lemma unsafe_mul_unsafe_div_witness :
  RouterMath.unsafe_div 1000000 3000000000 = Done 333333
  /\ RouterMath.unsafe_mul 333333 3000000000 = Done 999999
  /\ 999999 <= 1000000
  /\ (1000000 - 999999 - 1) * 10 ^ 9 < 3000000000.
Proof.
  split; [reflexivity|]. split; [reflexivity|].
  apply (unsafe_mul_unsafe_div 1000000 3000000000 333333 999999); (lia || reflexivity).
Defined.

(** Four coin types, nothing routed through the second one. *)
Lemma buildCoinTypePair_routes_witness :
  TransactionUtil.buildCoinTypePair ["0xa::a::A"; "0xb::b::B"; "0xc::c::C"; "0xd::d::D"] [0; 5]
  = [[Some "0xa::a::A"; Some "0xd::d::D"];
     [Some "0xa::a::A"; Some "0xc::c::C"; Some "0xd::d::D"]].
Proof.
  apply (buildCoinTypePair_routes ["0xa::a::A"; "0xb::b::B"; "0xc::c::C"; "0xd::d::D"] [0; 5]).
  discriminate.
Defined.

(** Exact input: the second pool gives the most of those that can fill. *)
Lemma preSwapWithMultiPool_exact_in_best_witness :
  let params := pools ["0xp0"; "0xp1"; "0xp2"] true in
  let result := answer "0xp1" true (swap_event 100 95 false) in
  exists i item,
    events !! i = Some item
    /\ SwapWithMultiPoolData.poolAddress result
       = PreSwapWithMultiPoolParams.poolAddresses params !! i
    /\ SwapWithMultiPoolData.estimatedAmountOut result
       = SwapEventData.amount_out (SwapEvent.data item)
    /\ SwapWithMultiPoolData.isExceed result = false
    /\ (forall j item', events !! j = Some item' -> exceeded item' = false ->
          out item' <= out item)
    /\ (forall j item', (j < i)%nat -> events !! j = Some item' -> exceeded item' = false ->
          out item' < out item).
Proof.
  apply (preSwapWithMultiPool_exact_in_best U64_MAX (pools ["0xp0"; "0xp1"; "0xp2"] true) events
           (answer "0xp1" true (swap_event 100 95 false))); [reflexivity|reflexivity|].
  exists (swap_event 100 90 false). split; [constructor|]. split; reflexivity.
Defined.

(** Exact output: the first pool reports the smallest amount out. *)
Lemma preSwapWithMultiPool_exact_out_best_witness :
  let params := pools ["0xp0"; "0xp1"; "0xp2"] false in
  let result := answer "0xp0" false (swap_event 100 90 false) in
  exists i item,
    events !! i = Some item
    /\ SwapWithMultiPoolData.poolAddress result
       = PreSwapWithMultiPoolParams.poolAddresses params !! i
    /\ SwapWithMultiPoolData.isExceed result = false
    /\ (forall j item', events !! j = Some item' -> exceeded item' = false ->
          out item <= out item')
    /\ (forall j item', (j < i)%nat -> events !! j = Some item' -> exceeded item' = false ->
          out item < out item').
Proof.
  apply (preSwapWithMultiPool_exact_out_best U64_MAX (pools ["0xp0"; "0xp1"; "0xp2"] false) events
           (answer "0xp0" false (swap_event 100 90 false))); [reflexivity|reflexivity|].
  exists (swap_event 100 90 false). split; [constructor|]. split; reflexivity.
Defined.

(** Two pools that cannot fill the swap: the first is the answer. *)
Lemma preSwapWithMultiPool_all_exceeded_witness :
  let result := answer "0xp0" true (swap_event 100 90 true) in
  SwapWithMultiPoolData.poolAddress result
  = PreSwapWithMultiPoolParams.poolAddresses (pools ["0xp0"; "0xp1"] true) !! 0%nat
  /\ SwapWithMultiPoolData.isExceed result = true.
Proof.
  apply (preSwapWithMultiPool_all_exceeded U64_MAX (pools ["0xp0"; "0xp1"] true) exceeded_events
           (answer "0xp0" true (swap_event 100 90 true))); [reflexivity|].
  intros item Hin. unfold exceeded_events in Hin.
  apply elem_of_cons in Hin as [->|Hin]; [reflexivity|].
  apply elem_of_cons in Hin as [->|Hin]; [reflexivity|].
  now apply elem_of_nil in Hin.
Defined.

(** Two routes, the second of which gives more. *)
Lemma preRouterSwapA2B2C_exact_in_best_witness :
  let valueData := [swap_event 100 90 false; swap_event 100 95 false] in
  let result :=
    PreSwapResult.mk 1 100 None 95 [Some (2 ^ 64 + 1)] [Some (2 ^ 64)] false 1 in
  exists item chosen,
    valueData !! PreSwapResult.index result = Some item
    /\ [route "0xp0"; route "0xp1"] !! PreSwapResult.index result = Some chosen
    /\ PreSwapResult.isExceed result = false
    /\ PreSwapResult.amountOut result = out item
    /\ PreSwapResult.amountIn result = PreRouterSwapParams.amount chosen
    /\ (forall j item', valueData !! j = Some item' -> exceeded item' = false ->
          out item' <= out item)
    /\ (forall j item', (j < PreSwapResult.index result)%nat ->
          valueData !! j = Some item' -> exceeded item' = false -> out item' < out item).
Proof.
  apply (preRouterSwapA2B2C_exact_in_best U64_MAX (route "0xp0") [route "0xp1"]
           [swap_event 100 90 false; swap_event 100 95 false]
           (PreSwapResult.mk 1 100 None 95 [Some (2 ^ 64 + 1)] [Some (2 ^ 64)] false 1));
    [reflexivity|reflexivity|].
  exists (swap_event 100 90 false). split; [constructor|]. split; reflexivity.
Defined.

(** One route and two events, the first of them exceeded. *)
Lemma preRouterSwapA2B2C_surplus_event_witness :
  PreRouter.preRouterSwapA2B2C U64_MAX [route "0xp0"]
    [swap_event 100 90 true; swap_event 100 95 false]
  = Raise NullReference.
Proof.
  apply (preRouterSwapA2B2C_surplus_event U64_MAX (route "0xp0") []
           [swap_event 100 90 true; swap_event 100 95 false]); [reflexivity| |].
  - intros [|j] item Hj Hitem; [|cbn in Hj; lia]. injection Hitem as <-. reflexivity.
  - exists (swap_event 100 95 false). split; [do 2 constructor|]. split; reflexivity.
Defined.

(** The account of two positions in the pool of three rewarders. *)
Lemma poolRewardersAmount_totals_witness :
  let self' := snd (RewarderModule.updatePoolRewarder "0xpool" 2000 rewarder_module) in
  exists refreshed held tickDatas infos,
    RewarderModule.updatePoolRewarder "0xpool" 2000 rewarder_module = (Returned refreshed, self')
    /\ getPositionList "0xaccount" ["0xpool"] = Returned held
    /\ RewarderQueries.getPoolLowerAndUpperTicks getTickDataByIndex
         (Pool.ticks_handle refreshed) held
       = Returned tickDatas
    /\ Forall2 (fun k info =>
                  exists position tickLower tickUpper,
                    held !! k = Some position
                    /\ fst tickDatas !! k = Some tickLower
                    /\ snd tickDatas !! k = Some tickUpper
                    /\ RewarderModule.posRewardersAmountInternal TickUtil.getRewardInTickRange
                         refreshed (Position.rewards position) tickLower tickUpper self'
                       = (Returned info, self')
                    /\ length info = 3%nat)
         (seq 0 (length held)) infos
    /\ [56; 102; 1] = [total_owed infos 0; total_owed infos 1; total_owed infos 2].
Proof.
  apply (poolRewardersAmount_totals TickUtil.getRewardInTickRange getPositionList
           getTickDataByIndex 2000 "0xaccount" "0xpool" rewarder_module [56; 102; 1]).
  vm_compute. reflexivity.
Defined.

(** The account of one position in the pool of one rewarder. *)
Lemma poolRewardersAmount_fewer_rewarders_witness :
  RewarderQueries.poolRewardersAmount TickUtil.getRewardInTickRange getPositionList_one
    getTickDataByIndex 2000 "0xaccount" "0xpool" Scenario.fresh_module
  = (Thrown TypeError, Scenario.updated_module).
Proof.
  apply (poolRewardersAmount_fewer_rewarders TickUtil.getRewardInTickRange getPositionList_one
           getTickDataByIndex 2000 "0xaccount" "0xpool" Scenario.fresh_module
           (Pool.set_rewarder_last_updated_time 2000 Scenario.pool) Scenario.updated_module
           (Position.mk "0xpos0" Scenario.position) []
           ([Scenario.tick (-10)], [Scenario.tick 10]) (Scenario.tick (-10)) (Scenario.tick 10)
           [RewarderAmountOwed.mk 17 "0x2::sui::SUI"]);
    first [reflexivity | cbn; lia].
Defined.

(** Two requests and the two events the chain reports for them. *)
Lemma fetchPosRewardersAmount_results_witness :
  let valueData := [[7; 3]; [8; 3]] in
  (valueData = [] ->
   RewarderFetch.fetchPosRewardersAmount devInspectPositionRewards requests = Done None)
  /\ (valueData <> [] -> length valueData <> length requests ->
      RewarderFetch.fetchPosRewardersAmount devInspectPositionRewards requests
      = Raise (Failure "valueData.length !== params.pools.length"))
  /\ (valueData <> [] -> length valueData = length requests ->
      exists result,
        RewarderFetch.fetchPosRewardersAmount devInspectPositionRewards requests
        = Done (Some result)
        /\ length result = length requests
        /\ forall i param data,
             requests !! i = Some param -> valueData !! i = Some data ->
             result !! i
             = Some (PosRewarderResult.mk
                       (FetchPosRewardParams.poolAddress param)
                       (FetchPosRewardParams.positionId param)
                       (imap (fun j rewarder =>
                                RewarderAmountOwed.mk (reported_at data j)
                                  (Rewarder.coinAddress rewarder))
                          (FetchPosRewardParams.rewarderInfo param)))).
Proof.
  apply (fetchPosRewardersAmount_results devInspectPositionRewards requests [[7; 3]; [8; 3]]).
  reflexivity.
Defined.

(** The totals of the account as the chain reports them. *)
Lemma fetchPoolRewardersAmount_totals_witness :
  RewarderFetch.fetchPoolRewardersAmount devInspectPositionRewards getPositionList
    rewarder_module "0xaccount" "0xpool"
  = Done (map (fun j => if (j <? length (Pool.rewarder_infos pool))%nat
                        then total_reported [[7; 3]; [8; 3]] j else 0)
            [0; 1; 2]%nat).
Proof.
  apply (fetchPoolRewardersAmount_totals devInspectPositionRewards getPositionList
           rewarder_module "0xaccount" "0xpool" pool positions [[7; 3]; [8; 3]]);
    [reflexivity|cbn; lia|reflexivity|reflexivity|right; reflexivity].
Defined.

(** The order of strings by their length answers a swapped pair with the
    opposite sign. *)
Lemma addPathProvider_ordered_witness :
  Forall
    (fun path' =>
       PathLink.quote path' = sui_coin_type
       \/ 0 <= localeCompare (PathLink.base path') (PathLink.quote path'))
    (PathProvider.paths (fst (RouterModule.addPathProvider localeCompare paths router))).
Proof.
  apply (addPathProvider_ordered Graph localeCompare paths router).
  intros a b. unfold localeCompare. lia.
Defined.

(** The pool of USDC and SUI after [loadGraph] on a new router. *)
Lemma loadGraph_poolAddressMap_witness :
  let self' := snd (snd loaded) in
  let key := "0xusdc::usdc::USDC-0x2::sui::SUI" in
  RouterModule.poolAddressMap self' !! key
  = last_written PathLink.addressMap (RouterModule.poolAddressMap router !! key)
      (filter (registers (RouterModule._coinAddressMap self') key)
         (concat (map PathProvider.paths (RouterModule.pathProviders router ++ [fst loaded])))).
Proof.
  apply (loadGraph_poolAddressMap Graph addEdge localeCompare coins paths router).
  vm_compute. reflexivity.
Defined.

Lemma loadGraph_getPoolAddressMapAndDirection_witness :
  exists addressMap,
    RouterModule.getPoolAddressMapAndDirection (snd (snd loaded))
      "0xusdc::usdc::USDC" "0x2::sui::SUI"
    = Some (AddressAndDirection.mk addressMap true).
Proof.
  apply (loadGraph_getPoolAddressMapAndDirection Graph addEdge localeCompare coins paths router
           (fst loaded) (snd (snd loaded))
           (PathLink.mk "0xusdc::usdc::USDC" "0x2::sui::SUI" {[2500 := "0xpool0"]}));
    [vm_compute; reflexivity|vm_compute; constructor|vm_compute; eexists; reflexivity..].
Defined.

Lemma loadGraph_returns_witness :
  exists self', snd loaded = (Done tt, self').
Proof.
  apply (loadGraph_returns Graph addEdge localeCompare coins paths router).
  intros graph base quote. eexists. reflexivity.
Defined.

End SdkExamples.
